(** * Flight telemetry server: the per-connection pipeline of [handleClient]

    A shallow embedding of [Source.cpp]: the receive buffer and its framing
    into newline-terminated records, the consumption tracker kept in
    [FlightData], the lines written to [cout], and the threads that share
    [cout] under [coutMutex].

    - [std::string] is [string]; [find], [substr] and [erase] are the three
      members the code calls ([Str]).
    - [double] is IEEE 754 binary64, computed by the Standard Library's
      executable specification [SpecFloat] (precision 53, [emax] 1024)
      ([Double]; [DoubleFacts] has what the proofs need of its rounding).
    - [time_t] is [Z]; [difftime] and [asctime] are those of ISO C ([Libc]).
    - The socket is the list of the byte blocks its successive [recv] calls
      deliver (at most [BUFFER_SIZE - 1] bytes each, which nothing below
      depends on); an empty block, or the end of the list, is a [recv] that
      returns no bytes.
    - [trim], [parseTelemetryData] and [TelemetryDataPoint] come from
      [Parse.h], [mktime] from the C library and the formatting of a
      [double] from [iostream]: they are parameters of [Section Server].
      [Sample] gives them values, to run sessions ([Scenario]).
    - [Console] interleaves the [cout] statements of several sessions. *)

From Stdlib Require Import String Ascii List ZArith Lia Bool Arith.
From Stdlib Require Import SpecFloat DecimalString.
Import ListNotations.

Local Open Scope list_scope.
Local Open Scope string_scope.

(** ** [std::string] *)

Module Str.

Definition NL : ascii := "010"%char.
Definition NUL : ascii := "000"%char.
Definition nl : string := String NL EmptyString.

Definition empty (s : string) : bool :=
  match s with
  | EmptyString => true
  | String _ _ => false
  end.

(** [s.find(c)]: the index of the first [c], [None] for [npos]. *)
Fixpoint find (c : ascii) (s : string) : option nat :=
  match s with
  | EmptyString => None
  | String a s' =>
      if Ascii.eqb a c then Some 0%nat else option_map S (find c s')
  end.

(** [s.substr(0, n)]. *)
Fixpoint substr0 (s : string) (n : nat) {struct n} : string :=
  match n with
  | O => EmptyString
  | S n' =>
      match s with
      | EmptyString => EmptyString
      | String a s' => String a (substr0 s' n')
      end
  end.

(** [s.erase(0, n)]. *)
Fixpoint erase0 (s : string) (n : nat) {struct n} : string :=
  match n with
  | O => s
  | S n' =>
      match s with
      | EmptyString => EmptyString
      | String _ s' => erase0 s' n'
      end
  end.

(** The bytes a [char] array holds as a C string: those before its first
    NUL.  [recvBuffer += buffer] appends exactly these. *)
Fixpoint c_str (buffer : string) : string :=
  match buffer with
  | EmptyString => EmptyString
  | String a s' => if Ascii.eqb a NUL then EmptyString else String a (c_str s')
  end.

Fixpoint concat (l : list string) : string :=
  match l with
  | [] => EmptyString
  | s :: l' => s ++ concat l'
  end.

(** [t] occurs in [s] as a contiguous block. *)
Fixpoint contains (t s : string) : bool :=
  if String.prefix t s then true
  else match s with
       | EmptyString => false
       | String _ s' => contains t s'
       end.

Fixpoint count (c : ascii) (s : string) : nat :=
  match s with
  | EmptyString => 0%nat
  | String a s' => ((if Ascii.eqb a c then 1 else 0) + count c s')%nat
  end.

Lemma app_nil_r (s : string) : s ++ EmptyString = s.
Proof. induction s; simpl; congruence. Qed.

Lemma app_assoc (a b c : string) : (a ++ b) ++ c = a ++ (b ++ c).
Proof. induction a; simpl; congruence. Qed.

Lemma length_app (a b : string) :
  String.length (a ++ b) = (String.length a + String.length b)%nat.
Proof. induction a; simpl; congruence. Qed.

Lemma concat_app (l1 l2 : list string) :
  concat (l1 ++ l2)%list = concat l1 ++ concat l2.
Proof.
  induction l1 as [|s l1 IH]; simpl; [reflexivity|].
  now rewrite IH, app_assoc.
Qed.

Lemma count_app (c : ascii) (a b : string) :
  count c (a ++ b) = (count c a + count c b)%nat.
Proof. induction a; simpl; [reflexivity|]. rewrite IHa. lia. Qed.

Lemma find_none_count (c : ascii) (s : string) :
  find c s = None <-> count c s = 0%nat.
Proof.
  induction s as [|a s IH]; simpl; [tauto|].
  destruct (Ascii.eqb a c); simpl.
  - split; discriminate.
  - destruct (find c s); simpl; split; intros H; try discriminate.
    + apply IH in H. discriminate.
    + now apply IH.
    + reflexivity.
Qed.

(** The three members together: a buffer with a [c] at index [n] is the
    prefix [substr0 s n], the [c], and what [erase0 s (n + 1)] leaves. *)
Lemma find_split (c : ascii) (s : string) (n : nat) :
  find c s = Some n ->
  s = substr0 s n ++ String c (erase0 s (n + 1)) /\ find c (substr0 s n) = None.
Proof.
  revert n; induction s as [|a s IH]; simpl; intros n H; [discriminate|].
  destruct (Ascii.eqb a c) eqn:E.
  - apply Ascii.eqb_eq in E. injection H as <-. simpl. now subst.
  - destruct (find c s) as [k|] eqn:F; simpl in H; [|discriminate].
    injection H as <-. destruct (IH k eq_refl) as [H1 H2].
    simpl. rewrite E, H2. split; [|reflexivity].
    f_equal. exact H1.
Qed.

Lemma find_lt (c : ascii) (s : string) (n : nat) :
  find c s = Some n -> (n < String.length s)%nat.
Proof.
  revert n; induction s as [|a s IH]; simpl; intros n H; [discriminate|].
  destruct (Ascii.eqb a c); [injection H as <-; lia|].
  destruct (find c s) as [k|]; simpl in H; [|discriminate].
  injection H as <-. specialize (IH k eq_refl). lia.
Qed.

Lemma length_erase0 (s : string) (n : nat) :
  String.length (erase0 s n) = (String.length s - n)%nat.
Proof.
  revert s; induction n as [|n IH]; intros [|a s]; simpl; auto.
Qed.

(** A buffer that holds no NUL is appended whole. *)
Lemma c_str_id (s : string) : find NUL s = None -> c_str s = s.
Proof.
  induction s as [|a s IH]; simpl; [reflexivity|].
  destruct (Ascii.eqb a NUL); [discriminate|].
  destruct (find NUL s); [discriminate|]. intros _. now rewrite IH.
Qed.

End Str.

(** ** [double]: IEEE 754 binary64 *)

Module Double.

Definition prec : Z := 53%Z.
Definition emax : Z := 1024%Z.

Definition double : Type := spec_float.

(** The literal [0.0]. *)
Definition zero : double := S754_zero false.

Definition sub : double -> double -> double := SFsub prec emax.
Definition div : double -> double -> double := SFdiv prec emax.

(** [x > 0]: false on a NaN. *)
Definition gt0 (x : double) : bool := SFltb zero x.

(** The conversion of an integer, rounded to nearest even. *)
Definition of_Z (z : Z) : double := binary_normalize prec emax z 0%Z false.

Definition is_infinite (x : double) : bool :=
  match x with
  | S754_infinity _ => true
  | _ => false
  end.

(** A number: neither an infinity nor a NaN. *)
Definition is_finite (x : double) : bool :=
  match x with
  | S754_zero _ | S754_finite _ _ _ => true
  | _ => false
  end.

Definition is_nonneg (x : double) : bool :=
  match x with
  | S754_zero _ => true
  | S754_finite s _ _ | S754_infinity s => negb s
  | S754_nan => false
  end.

(** A value a [double] variable can hold: the mantissa and the exponent of a
    finite one are those of its binary64 encoding. *)
Definition valid (x : double) : bool := valid_binary prec emax x.

End Double.

Import Double.


(** ** Rounding in binary64: when a result is a number

    The facts about [SpecFloat]'s rounding that the tracker's arithmetic
    needs: a difference of two non-negative numbers, and a quotient of a
    number by a value that is at least one, do not overflow. *)

Module DoubleFacts.

Local Open Scope Z_scope.

(** The largest exponent of a finite binary64 value, [emax - prec]. *)
Definition etop : Z := 971.

(** The second half of [binary_round_aux]: the rounded mantissa is brought
    back to the format and the overflow test decides. *)
Definition finish (sx : bool) (m2 e1 : Z) : double :=
  let '(mrs'', e'') := shr_fexp prec emax m2 e1 loc_Exact in
  match shr_m mrs'' with
  | Z0 => S754_zero sx
  | Zpos m =>
      if e'' <=? emax - prec then S754_finite sx m e'' else S754_infinity sx
  | Zneg _ => S754_nan
  end.

(** A zero, or a finite value whose mantissa and exponent fit binary64. *)
Definition fits (x : double) : Prop :=
  match x with
  | S754_zero _ => True
  | S754_finite _ m e => Zpos m < 2 ^ 53 /\ e <= etop
  | _ => False
  end.

(** An infinity of sign [s], or a finite value of sign [s] that is at least
    [2 ^ (d - 1)]. *)
Definition at_least (s : bool) (d : Z) (x : double) : Prop :=
  match x with
  | S754_infinity s' => s' = s
  | S754_finite s' m e => s' = s /\ d <= Zdigits2 (Zpos m) + e
  | _ => False
  end.

Lemma fexp_eq (e : Z) : fexp prec emax e = Z.max (e - 53) (-1074).
Proof. reflexivity. Qed.

Lemma digits2_size (p : positive) : digits2_pos p = Pos.size p.
Proof. induction p; simpl; congruence. Qed.

Lemma digits_nonneg (m : Z) : 0 <= Zdigits2 m.
Proof. destruct m; unfold Zdigits2; lia. Qed.

Lemma digits_pos (m : Z) : 0 < m -> 1 <= Zdigits2 m.
Proof. destruct m; unfold Zdigits2; lia. Qed.

Lemma digits_upper (m : Z) : 0 <= m -> m < 2 ^ Zdigits2 m.
Proof.
  destruct m as [|p|p]; unfold Zdigits2; intros H; [reflexivity| |lia].
  rewrite digits2_size. pose proof (Pos.size_gt p) as G.
  apply Pos2Z.pos_lt_pos in G. now rewrite Pos2Z.inj_pow in G.
Qed.

Lemma digits_lower (m : Z) : 0 < m -> 2 ^ (Zdigits2 m - 1) <= m.
Proof.
  destruct m as [|p|p]; unfold Zdigits2; intros H; try lia.
  rewrite digits2_size. pose proof (Pos.size_le p) as G.
  apply Pos2Z.pos_le_pos in G. rewrite Pos2Z.inj_pow in G.
  change (Z.pos p~0) with (2 * Z.pos p) in G.
  replace (Z.pos (Pos.size p)) with (1 + (Z.pos (Pos.size p) - 1)) in G at 1
    by lia.
  rewrite Z.pow_add_r in G by lia. change (2 ^ 1) with 2 in G. lia.
Qed.

Lemma digits_le (m d : Z) : 0 <= m -> 0 <= d -> m < 2 ^ d -> Zdigits2 m <= d.
Proof.
  intros Hm Hd H. destruct (Z.eq_dec m 0) as [->|Hz]; [unfold Zdigits2; lia|].
  pose proof (digits_lower m ltac:(lia)) as L.
  pose proof (digits_nonneg m).
  destruct (Z_le_gt_dec (Zdigits2 m) d) as [|G]; [assumption|].
  assert (2 ^ d <= 2 ^ (Zdigits2 m - 1)) by (apply Z.pow_le_mono_r; lia). lia.
Qed.

Lemma digits_ge (m d : Z) : 0 < m -> 2 ^ (d - 1) <= m -> d <= Zdigits2 m.
Proof.
  intros Hm H. pose proof (digits_upper m ltac:(lia)) as U.
  pose proof (digits_nonneg m).
  destruct (Z_le_gt_dec d (Zdigits2 m)) as [|G]; [assumption|].
  assert (2 ^ Zdigits2 m <= 2 ^ (d - 1)) by (apply Z.pow_le_mono_r; lia). lia.
Qed.

Lemma pow2_xO (p : positive) : 2 ^ Z.pos p~0 = 2 ^ Z.pos p * 2 ^ Z.pos p.
Proof. rewrite <- Z.pow_add_r by lia. f_equal. lia. Qed.

Lemma pow2_xI (p : positive) : 2 ^ Z.pos p~1 = 2 * (2 ^ Z.pos p * 2 ^ Z.pos p).
Proof.
  rewrite <- Z.pow_add_r by lia. rewrite <- (Z.pow_succ_r 2) by lia.
  f_equal. lia.
Qed.

Lemma pow2_pos (n : Z) : 0 <= n -> 0 < 2 ^ n.
Proof. intros; apply Z.pow_pos_nonneg; lia. Qed.

(** One shift: the mantissa is halved, the bit that falls out becomes the
    round bit, the old round and sticky bits the sticky bit. *)
Lemma shr_1_spec (r : shr_record) :
  0 <= shr_m r ->
  shr_1 r = {| shr_m := shr_m r / 2; shr_r := Z.odd (shr_m r);
               shr_s := shr_r r || shr_s r |}.
Proof.
  destruct r as [m rb sb]; unfold shr_1, shr_m, shr_r, shr_s; intros H.
  destruct m as [|[p|p|]|p]; try lia; try reflexivity.
  - f_equal. rewrite <- Z.div2_div. reflexivity.
  - f_equal. rewrite <- Z.div2_div. reflexivity.
Qed.

Lemma iter_shr_m (p : positive) : forall r : shr_record,
  0 <= shr_m r ->
  0 <= shr_m (iter_pos shr_1 p r)
  /\ shr_m (iter_pos shr_1 p r) = shr_m r / 2 ^ Zpos p.
Proof.
  induction p as [p IH|p IH|]; intros r H; cbn [iter_pos].
  - pose proof (shr_1_spec r H) as E1.
    assert (P : 0 < 2 ^ Z.pos p) by (apply pow2_pos; lia).
    assert (H1 : 0 <= shr_m (shr_1 r))
      by (rewrite E1; cbn [shr_m]; apply Z.div_pos; lia).
    destruct (IH _ H1) as [H2 E2]. destruct (IH _ H2) as [H3 E3].
    split; [assumption|]. rewrite E3, E2, E1. cbn [shr_m].
    rewrite !Z.div_div by lia. now rewrite pow2_xI, Z.mul_assoc.
  - assert (P : 0 < 2 ^ Z.pos p) by (apply pow2_pos; lia).
    destruct (IH _ H) as [H2 E2]. destruct (IH _ H2) as [H3 E3].
    split; [assumption|]. rewrite E3, E2.
    rewrite !Z.div_div by lia. now rewrite pow2_xO.
  - pose proof (shr_1_spec r H) as E1. rewrite E1. cbn [shr_m].
    split; [apply Z.div_pos; lia|]. now rewrite Z.pow_1_r.
Qed.

(** Shifting out zero bits only leaves the location exact. *)
Lemma iter_shr_exact (p : positive) : forall (r : shr_record) (c : Z),
  0 <= c -> shr_m r = c * 2 ^ Zpos p -> shr_r r = false -> shr_s r = false ->
  iter_pos shr_1 p r = {| shr_m := c; shr_r := false; shr_s := false |}.
Proof.
  induction p as [p IH|p IH|]; intros r c Hc E Hr Hs; cbn [iter_pos].
  - assert (P : 0 < 2 ^ Z.pos p) by (apply pow2_pos; lia).
    assert (E' : shr_m r = (c * 2 ^ Z.pos p * 2 ^ Z.pos p) * 2)
      by (rewrite E, pow2_xI; lia).
    rewrite shr_1_spec by (rewrite E'; nia).
    rewrite Hr, Hs, E'. rewrite Z.div_mul by lia.
    rewrite Z.odd_mul. cbn [orb]. rewrite andb_false_r.
    set (r1 := {| shr_m := c * 2 ^ Z.pos p * 2 ^ Z.pos p;
                  shr_r := false; shr_s := false |}).
    assert (E1 : iter_pos shr_1 p r1
                 = {| shr_m := c * 2 ^ Z.pos p;
                      shr_r := false; shr_s := false |})
      by (apply IH; [nia|reflexivity|reflexivity|reflexivity]).
    rewrite E1. apply IH; auto.
  - assert (P : 0 < 2 ^ Z.pos p) by (apply pow2_pos; lia).
    assert (E1 : iter_pos shr_1 p r
                 = {| shr_m := c * 2 ^ Z.pos p;
                      shr_r := false; shr_s := false |}).
    { apply IH; [nia| |assumption|assumption]. rewrite E, pow2_xO. lia. }
    rewrite E1. apply IH; auto.
  - rewrite Z.pow_1_r in E.
    rewrite shr_1_spec by lia. rewrite Hr, Hs, E.
    rewrite Z.div_mul by lia. rewrite Z.odd_mul. cbn. now rewrite andb_false_r.
Qed.

Lemma shr_record_of_loc_m (m : Z) (l : location) :
  shr_m (shr_record_of_loc m l) = m.
Proof. destruct l as [|[]]; reflexivity. Qed.

Lemma round_nearest_even_bounds (m : Z) (l : location) :
  m <= round_nearest_even m l <= m + 1.
Proof.
  unfold round_nearest_even. destruct l as [|[]]; try lia.
  destruct (Z.even m); lia.
Qed.

(** [shr_fexp]: the mantissa loses [fexp (digits + e) - e] bits when that is
    positive, and the exponent grows by as much. *)
Lemma shr_fexp_spec (m e : Z) (l : location) :
  0 <= m ->
  let k := Z.max 0 (fexp prec emax (Zdigits2 m + e) - e) in
  let '(r, e1) := shr_fexp prec emax m e l in
  0 <= shr_m r /\ e1 = e + k /\ shr_m r = m / 2 ^ k
  /\ (k = 0 -> r = shr_record_of_loc m l).
Proof.
  intros Hm. unfold shr_fexp, shr.
  destruct (fexp prec emax (Zdigits2 m + e) - e) as [|p|p] eqn:K; cbn zeta.
  - rewrite shr_record_of_loc_m. change (Z.max 0 0) with 0.
    rewrite Z.pow_0_r, Z.div_1_r. repeat split; auto; lia.
  - assert (H0 : 0 <= shr_m (shr_record_of_loc m l))
      by now rewrite shr_record_of_loc_m.
    destruct (iter_shr_m p _ H0) as [H1 H2].
    rewrite shr_record_of_loc_m in H2.
    replace (Z.max 0 (Z.pos p)) with (Z.pos p) by lia.
    repeat split; auto; lia.
  - rewrite shr_record_of_loc_m.
    replace (Z.max 0 (Z.neg p)) with 0 by lia.
    rewrite Z.pow_0_r, Z.div_1_r. repeat split; auto; lia.
Qed.

Lemma binary_round_aux_finish (sx : bool) (mx ex : Z) (lx : location) :
  binary_round_aux prec emax sx mx ex lx =
  let '(r1, e1) := shr_fexp prec emax mx ex lx in
  finish sx (round_nearest_even (shr_m r1) (loc_of_shr_record r1)) e1.
Proof.
  unfold binary_round_aux, finish.
  destruct (shr_fexp prec emax mx ex lx) as [r1 e1]. reflexivity.
Qed.

Lemma div_pow2_lt (m a b : Z) :
  0 <= b -> 0 <= a -> m < 2 ^ (a + b) -> m / 2 ^ b < 2 ^ a.
Proof.
  intros Hb Ha H. apply Z.div_lt_upper_bound; [now apply pow2_pos|].
  now rewrite <- Z.pow_add_r, Z.add_comm by lia.
Qed.

Lemma div_pow2_le (m a b : Z) :
  0 <= b -> 0 <= a -> 2 ^ (a + b) <= m -> 2 ^ a <= m / 2 ^ b.
Proof.
  intros Hb Ha H. apply Z.div_le_lower_bound; [now apply pow2_pos|].
  now rewrite <- Z.pow_add_r, Z.add_comm by lia.
Qed.

(** The rounded mantissa fits when it is below [2 ^ (emax - e1)]. *)
Lemma finish_fits (s : bool) (m2 e1 : Z) :
  0 <= m2 -> e1 <= etop -> m2 < 2 ^ (1024 - e1) -> fits (finish s m2 e1).
Proof.
  intros Hm He Hb. unfold finish.
  pose proof (shr_fexp_spec m2 e1 loc_Exact Hm) as S.
  destruct (shr_fexp prec emax m2 e1 loc_Exact) as [r e2].
  cbn zeta in S. destruct S as (H0 & -> & Hr & _).
  rewrite fexp_eq in Hr |- *. unfold etop in *.
  pose proof (digits_le m2 (1024 - e1) Hm ltac:(lia) Hb) as D.
  pose proof (digits_nonneg m2) as Dn.
  set (k := Z.max 0 (Z.max (Zdigits2 m2 + e1 - 53) (-1074) - e1)) in *.
  assert (Hk : 0 <= k) by lia.
  assert (M : shr_m r < 2 ^ 53).
  { rewrite Hr. apply div_pow2_lt; try lia.
    apply Z.lt_le_trans with (1 := digits_upper m2 Hm).
    apply Z.pow_le_mono_r; lia. }
  destruct (shr_m r) as [|p|p]; [exact I| |lia].
  replace (e1 + k <=? emax - prec) with true
    by (symmetry; apply Z.leb_le; unfold emax, prec; lia).
  cbn. unfold etop. split; [assumption|lia].
Qed.

(** A mantissa of [dm] digits stays at least [2 ^ (dm + e1 - 1)]. *)
Lemma finish_at_least (s : bool) (m2 e1 d : Z) :
  0 < m2 -> -1073 <= d -> d <= Zdigits2 m2 + e1 ->
  at_least s d (finish s m2 e1).
Proof.
  intros Hm Hd Hb. unfold finish.
  pose proof (shr_fexp_spec m2 e1 loc_Exact ltac:(lia)) as S.
  destruct (shr_fexp prec emax m2 e1 loc_Exact) as [r e2].
  cbn zeta in S. destruct S as (H0 & -> & Hr & _).
  rewrite fexp_eq in Hr |- *.
  pose proof (digits_lower m2 Hm) as L.
  pose proof (digits_pos m2 Hm) as Dp.
  set (k := Z.max 0 (Z.max (Zdigits2 m2 + e1 - 53) (-1074) - e1)) in *.
  assert (Hk : 0 <= k <= Zdigits2 m2 - 1) by lia.
  assert (M : 2 ^ (Zdigits2 m2 - 1 - k) <= shr_m r).
  { rewrite Hr. apply div_pow2_le; try lia.
    now replace (Zdigits2 m2 - 1 - k + k) with (Zdigits2 m2 - 1) by lia. }
  assert (P : 0 < 2 ^ (Zdigits2 m2 - 1 - k)) by (apply pow2_pos; lia).
  destruct (shr_m r) as [|p|p] eqn:E; [lia| |lia].
  assert (G : Zdigits2 m2 - k <= Zdigits2 (Z.pos p)).
  { apply digits_ge; [lia|].
    now replace (Zdigits2 m2 - k - 1) with (Zdigits2 m2 - 1 - k) by lia. }
  destruct (e1 + k <=? emax - prec); cbn [at_least];
    [split; [reflexivity|lia]|reflexivity].
Qed.

Lemma digits_mono (a b : Z) : 0 < a -> a <= b -> Zdigits2 a <= Zdigits2 b.
Proof.
  intros Ha Hab. apply digits_ge; [lia|].
  pose proof (digits_lower a Ha). lia.
Qed.

Lemma binary_round_aux_at_least (s : bool) (mx ex d : Z) (lx : location) :
  0 < mx -> -1073 <= d -> d <= Zdigits2 mx + ex ->
  at_least s d (binary_round_aux prec emax s mx ex lx).
Proof.
  intros Hm Hd Hb. rewrite binary_round_aux_finish.
  pose proof (shr_fexp_spec mx ex lx ltac:(lia)) as S.
  destruct (shr_fexp prec emax mx ex lx) as [r e1].
  cbn zeta in S. destruct S as (H0 & -> & Hr & _).
  rewrite fexp_eq in Hr |- *.
  pose proof (digits_lower mx Hm) as L.
  pose proof (digits_pos mx Hm) as Dp.
  set (k := Z.max 0 (Z.max (Zdigits2 mx + ex - 53) (-1074) - ex)) in *.
  assert (Hk : 0 <= k <= Zdigits2 mx - 1) by lia.
  assert (M : 2 ^ (Zdigits2 mx - 1 - k) <= shr_m r).
  { rewrite Hr. apply div_pow2_le; try lia.
    now replace (Zdigits2 mx - 1 - k + k) with (Zdigits2 mx - 1) by lia. }
  assert (P : 0 < 2 ^ (Zdigits2 mx - 1 - k)) by (apply pow2_pos; lia).
  pose proof (round_nearest_even_bounds (shr_m r) (loc_of_shr_record r)) as B.
  set (m2 := round_nearest_even (shr_m r) (loc_of_shr_record r)) in *.
  assert (G : Zdigits2 mx - k <= Zdigits2 m2).
  { apply digits_ge; [lia|].
    replace (Zdigits2 mx - k - 1) with (Zdigits2 mx - 1 - k) by lia. lia. }
  apply finish_at_least; lia.
Qed.

(** [shl_align]: the mantissa is shifted left down to the exponent asked
    for, when that is smaller. *)
Lemma shl_align_spec (mx : positive) (ex ex' : Z) :
  let '(mz, ez) := shl_align mx ex ex' in
  ez = Z.min ex ex' /\ Z.pos mz = Z.pos mx * 2 ^ (ex - ez).
Proof.
  unfold shl_align. destruct (ex' - ex) as [|p|p] eqn:K.
  - split; [lia|]. replace (ex - ex) with 0 by lia. lia.
  - split; [lia|]. replace (ex - ex) with 0 by lia. lia.
  - split; [lia|]. replace (ex - ex') with (Z.pos p) by lia.
    change (Pos.iter xO mx p) with (shift_pos p mx).
    rewrite shift_pos_correct, Z.pow_pos_fold. lia.
Qed.

Lemma digits_shift (m n : Z) :
  0 < m -> 0 <= n -> Zdigits2 (m * 2 ^ n) = Zdigits2 m + n.
Proof.
  intros Hm Hn. pose proof (pow2_pos n Hn) as P.
  pose proof (digits_pos m Hm) as Dp.
  pose proof (digits_lower m Hm) as L.
  pose proof (digits_upper m ltac:(lia)) as U.
  apply Z.le_antisymm.
  - apply digits_le; try nia. rewrite Z.pow_add_r by lia. nia.
  - apply digits_ge; [nia|].
    replace (Zdigits2 m + n - 1) with (Zdigits2 m - 1 + n) by lia.
    rewrite Z.pow_add_r by lia. nia.
Qed.

Lemma binary_round_at_least (s : bool) (mx : positive) (ex d : Z) :
  -1073 <= d -> d <= Zdigits2 (Z.pos mx) + ex ->
  at_least s d (binary_round prec emax s mx ex).
Proof.
  intros Hd Hb. unfold binary_round.
  pose proof (shl_align_spec mx ex
                (fexp prec emax (Z.pos (digits2_pos mx) + ex))) as A.
  destruct (shl_align mx ex _) as [mz ez]. destruct A as [Ez Em].
  apply binary_round_aux_at_least; [lia|assumption|].
  rewrite Em, digits_shift by lia. lia.
Qed.

(** A value below the largest finite one rounds to a number. *)
Lemma binary_round_fits (s : bool) (mx : positive) (ex : Z) :
  ex <= etop -> Z.pos mx < (2 ^ 53 - 1) * 2 ^ (etop - ex) ->
  fits (binary_round prec emax s mx ex).
Proof.
  unfold etop. intros He Hb. unfold binary_round.
  change (Z.pos (digits2_pos mx)) with (Zdigits2 (Z.pos mx)).
  pose proof (shl_align_spec mx ex
                (fexp prec emax (Zdigits2 (Z.pos mx) + ex))) as A.
  destruct (shl_align mx ex _) as [mz ez]. destruct A as [Ez Em].
  rewrite fexp_eq in Ez.
  assert (Dz : Zdigits2 (Z.pos mz) + ez = Zdigits2 (Z.pos mx) + ex)
    by (rewrite Em, digits_shift by lia; lia).
  pose proof (pow2_pos (971 - ex) ltac:(lia)) as P0.
  assert (Ub : Z.pos mx < 2 ^ (1024 - ex)).
  { replace (1024 - ex) with (53 + (971 - ex)) by lia.
    rewrite Z.pow_add_r by lia. nia. }
  pose proof (digits_le (Z.pos mx) (1024 - ex) ltac:(lia) ltac:(lia) Ub) as Dx.
  rewrite binary_round_aux_finish.
  pose proof (shr_fexp_spec (Z.pos mz) ez loc_Exact ltac:(lia)) as S.
  destruct (shr_fexp prec emax (Z.pos mz) ez loc_Exact) as [r e1].
  cbn zeta in S. destruct S as (H0 & E1 & Hr & Hx).
  rewrite fexp_eq, Dz in E1, Hr, Hx.
  set (D := Zdigits2 (Z.pos mx) + ex) in *.
  pose proof (round_nearest_even_bounds (shr_m r) (loc_of_shr_record r)) as B.
  destruct (Z_le_gt_dec (Z.max (D - 53) (-1074)) ex) as [C|C].
  - (* aligned: nothing is shifted out *)
    replace (Z.max 0 (Z.max (D - 53) (-1074) - ez)) with 0 in * by lia.
    rewrite (Hx eq_refl).
    cbn [shr_record_of_loc shr_m loc_of_shr_record round_nearest_even].
    apply finish_fits; unfold etop; try lia.
    rewrite Em. replace (1024 - e1) with (1024 - ex + (ex - ez)) by lia.
    rewrite Z.pow_add_r by lia.
    pose proof (pow2_pos (ex - ez) ltac:(lia)). nia.
  - (* the mantissa is too long: it is as given, and loses its low bits *)
    assert (Hez : ez = ex) by lia. clear Ez. subst ez.
    assert (Emz : Z.pos mz = Z.pos mx) by (rewrite Em, Z.sub_diag; lia).
    set (k := Z.max 0 (Z.max (D - 53) (-1074) - ex)) in *.
    assert (Hk : 0 < k) by lia.
    assert (He1 : e1 <= 971) by lia.
    apply finish_fits; unfold etop; try lia.
    assert (M : shr_m r < 2 ^ (1024 - e1) - 1).
    { rewrite Hr, Emz. apply Z.div_lt_upper_bound; [apply pow2_pos; lia|].
      apply Z.lt_le_trans with (1 := Hb).
      replace (971 - ex) with (k + (971 - e1)) by lia.
      replace (1024 - e1) with (53 + (971 - e1)) by lia.
      rewrite !Z.pow_add_r by lia.
      pose proof (pow2_pos k ltac:(lia)).
      pose proof (pow2_pos (971 - e1) ltac:(lia)).
      nia. }
    lia.
Qed.

(** *** Conversion of an integer *)

Lemma of_Z_pos (z : Z) : 0 < z -> at_least false 1 (of_Z z).
Proof.
  destruct z as [|p|p]; try lia. intros _. unfold of_Z, binary_normalize.
  apply binary_round_at_least; [lia|].
  pose proof (digits_pos (Z.pos p) ltac:(lia)). lia.
Qed.

Lemma of_Z_neg (z : Z) : z < 0 -> at_least true 1 (of_Z z).
Proof.
  destruct z as [|p|p]; try lia. intros _. unfold of_Z, binary_normalize.
  apply binary_round_at_least; [lia|].
  pose proof (digits_pos (Z.pos p) ltac:(lia)). lia.
Qed.

Lemma gt0_at_least (s : bool) (d : Z) (x : double) :
  at_least s d x -> gt0 x = negb s.
Proof.
  destruct x as [sx|sx| |sx m e]; cbn [at_least]; try contradiction.
  - intros ->. now destruct s.
  - intros [-> _]. now destruct s.
Qed.

(** [difftime(a, b) > 0] exactly when [b < a]. *)
Lemma gt0_of_Z (z : Z) : gt0 (of_Z z) = (0 <? z).
Proof.
  destruct (Z.ltb_spec 0 z) as [H|H].
  - now rewrite (gt0_at_least _ _ _ (of_Z_pos z H)).
  - destruct (Z.eq_dec z 0) as [->|N]; [reflexivity|].
    now rewrite (gt0_at_least _ _ _ (of_Z_neg z ltac:(lia))).
Qed.

(** *** Subtraction *)

(** A fuel level the tracker can take: a binary64 number, not negative. *)
Definition fuel_ok (x : double) : bool :=
  valid x && is_finite x && is_nonneg x.

Lemma bounded_fits (m : positive) (e : Z) :
  bounded prec emax m e = true -> Z.pos m < 2 ^ 53 /\ e <= etop.
Proof.
  unfold bounded, canonical_mantissa. rewrite fexp_eq. intros H.
  apply andb_prop in H. destruct H as [C B].
  apply Z.eqb_eq in C. apply Z.leb_le in B. unfold emax, prec in B.
  change (Z.pos (digits2_pos m)) with (Zdigits2 (Z.pos m)) in C.
  split; [|unfold etop; lia].
  apply Z.lt_le_trans with (1 := digits_upper (Z.pos m) ltac:(lia)).
  apply Z.pow_le_mono_r; lia.
Qed.

Lemma fuel_ok_fits (x : double) : fuel_ok x = true -> fits x.
Proof.
  unfold fuel_ok, valid. intros H.
  apply andb_prop in H. destruct H as [H N]. apply andb_prop in H.
  destruct H as [V F].
  destruct x as [s|s| |s m e]; try discriminate; [exact I|].
  now apply bounded_fits.
Qed.

Lemma aligned_bound (mx : positive) (ex ez : Z) :
  Z.pos mx < 2 ^ 53 -> ex <= etop -> ez <= ex ->
  0 < Z.pos (fst (shl_align mx ex ez))
    <= (2 ^ 53 - 1) * 2 ^ (etop - ez).
Proof.
  unfold etop. intros Hm He Hz.
  pose proof (shl_align_spec mx ex ez) as A.
  destruct (shl_align mx ex ez) as [mz e']. destruct A as [E1 E2].
  cbn [fst]. split; [lia|]. rewrite E2.
  replace e' with ez by lia.
  replace (971 - ez) with ((971 - ex) + (ex - ez)) by lia.
  rewrite Z.pow_add_r by lia.
  pose proof (pow2_pos (971 - ex) ltac:(lia)).
  pose proof (pow2_pos (ex - ez) ltac:(lia)). nia.
Qed.

(** The difference of two fuel levels is a number. *)
Lemma sub_fits (x y : double) :
  fuel_ok x = true -> fuel_ok y = true -> fits (sub x y).
Proof.
  intros Hx Hy. pose proof (fuel_ok_fits x Hx) as Fx.
  pose proof (fuel_ok_fits y Hy) as Fy.
  unfold fuel_ok in Hx, Hy.
  apply andb_prop in Hx. destruct Hx as [_ Nx].
  apply andb_prop in Hy. destruct Hy as [_ Ny].
  destruct x as [sx|sx| |sx mx ex]; try contradiction;
    destruct y as [sy|sy| |sy my ey]; try contradiction;
    unfold sub, SFsub.
  - destruct sx, sy; exact I.
  - exact Fy.
  - exact Fx.
  - cbn [is_nonneg] in Nx, Ny.
    apply negb_true_iff in Nx. apply negb_true_iff in Ny. subst sx sy.
    cbn [fits] in Fx, Fy. destruct Fx as [Mx Ex]. destruct Fy as [My Ey].
    cbn [cond_Zopp].
    set (ez := Z.min ex ey).
    pose proof (aligned_bound mx ex ez Mx Ex ltac:(lia)) as A.
    pose proof (aligned_bound my ey ez My Ey ltac:(lia)) as B.
    set (a := Z.pos (fst (shl_align mx ex ez))) in *.
    set (b := Z.pos (fst (shl_align my ey ez))) in *.
    unfold binary_normalize.
    destruct (a - b) as [|p|p] eqn:Ed; [exact I| |];
      apply binary_round_fits; unfold etop in *; lia.
Qed.

(** *** Division *)

Lemma new_location_0 (n : Z) : new_location n 0 = loc_Exact.
Proof.
  unfold new_location, new_location_even, new_location_odd.
  destruct (Z.even n); reflexivity.
Qed.

Lemma shr_fexp_exact (m e : Z) :
  0 <= m ->
  let k := Z.max 0 (fexp prec emax (Zdigits2 m + e) - e) in
  m mod 2 ^ k = 0 ->
  shr_fexp prec emax m e loc_Exact =
  ({| shr_m := m / 2 ^ k; shr_r := false; shr_s := false |}, e + k).
Proof.
  intros Hm. unfold shr_fexp, shr.
  destruct (fexp prec emax (Zdigits2 m + e) - e) as [|p|p]; cbn zeta.
  - change (Z.max 0 0) with 0. intros _.
    rewrite Z.pow_0_r, Z.div_1_r, Z.add_0_r. reflexivity.
  - replace (Z.max 0 (Z.pos p)) with (Z.pos p) by lia. intros E.
    assert (P : 0 < 2 ^ Z.pos p) by (apply pow2_pos; lia).
    f_equal. apply iter_shr_exact; try reflexivity.
    + apply Z.div_pos; lia.
    + cbn [shr_record_of_loc shr_m].
      rewrite (Z.div_mod m (2 ^ Z.pos p)) at 1 by lia. rewrite E. lia.
  - replace (Z.max 0 (Z.neg p)) with 0 by lia. intros _.
    rewrite Z.pow_0_r, Z.div_1_r, Z.add_0_r. reflexivity.
Qed.

(** A number divided by a value of at least one is a number. *)
Lemma div_fits (x y : double) :
  fits x -> at_least false 1 y -> fits (div x y).
Proof.
  intros Fx Ay.
  destruct x as [sx|sx| |sx mx ex]; try contradiction;
    destruct y as [sy|sy| |sy my ey]; try contradiction;
    unfold div, SFdiv; try exact I.
  cbn [fits] in Fx. destruct Fx as [Mx Ex]. unfold etop in Ex.
  cbn [at_least] in Ay. destruct Ay as [_ Ey].
  unfold SFdiv_core_binary.
  set (d1 := Zdigits2 (Z.pos mx)) in *. set (d2 := Zdigits2 (Z.pos my)) in *.
  set (e' := Z.min (fexp prec emax (d1 + ex - (d2 + ey))) (ex - ey)).
  set (s := ex - ey - e').
  assert (Hs : 0 <= s) by lia.
  set (m' := match s with
             | Z0 => Z.pos mx
             | Z.pos _ => Z.shiftl (Z.pos mx) s
             | Z.neg _ => 0
             end).
  assert (Em : m' = Z.pos mx * 2 ^ s).
  { unfold m'. destruct s as [|p|p] eqn:Es; try lia.
    now rewrite Z.shiftl_mul_pow2 by lia. }
  clearbody m'.
  pose proof (Z_div_mod m' (Z.pos my) ltac:(lia)) as DM.
  destruct (Z.div_eucl m' (Z.pos my)) as [q r]. destruct DM as [Eq Hr].
  (* the digits of the operands *)
  pose proof (digits_pos (Z.pos mx) ltac:(lia)) as P1.
  pose proof (digits_pos (Z.pos my) ltac:(lia)) as P2.
  pose proof (digits_le (Z.pos mx) 53 ltac:(lia) ltac:(lia) Mx) as L1.
  pose proof (digits_upper (Z.pos mx) ltac:(lia)) as U1.
  pose proof (digits_lower (Z.pos my) ltac:(lia)) as L2.
  fold d1 in P1, L1, U1. fold d2 in P2, L2.
  assert (He' : e' <= 970) by (unfold e'; rewrite fexp_eq; lia).
  pose proof (pow2_pos s Hs) as Ps.
  pose proof (pow2_pos (d2 - 1) ltac:(lia)) as Pd.
  assert (Hq : 0 <= q) by nia.
  assert (Qb : q < 2 ^ (1024 - e')).
  { assert (A : q * 2 ^ (d2 - 1) < 2 ^ (d1 + s)).
    { rewrite Z.pow_add_r by lia. nia. }
    assert (B : 2 ^ (d1 + s) <= 2 ^ (1024 - e' + (d2 - 1)))
      by (apply Z.pow_le_mono_r; lia).
    rewrite (Z.pow_add_r 2 (1024 - e')) in B by lia.
    apply (Z.mul_lt_mono_pos_r (2 ^ (d2 - 1))); lia. }
  pose proof (digits_le q (1024 - e') Hq ltac:(lia) Qb) as Dq.
  pose proof (digits_upper q Hq) as Uq.
  rewrite binary_round_aux_finish.
  pose proof (shr_fexp_spec q e' (new_location (Z.pos my) r) Hq) as S.
  destruct (shr_fexp prec emax q e' (new_location (Z.pos my) r))
    as [r1 e1] eqn:SE.
  cbn zeta in S. destruct S as (H0 & E1 & Hm1 & _).
  rewrite fexp_eq in E1, Hm1.
  set (k := Z.max 0 (Z.max (Zdigits2 q + e' - 53) (-1074) - e')) in *.
  assert (Hk : 0 <= k) by lia.
  pose proof (pow2_pos k Hk) as Pk.
  assert (He1 : e1 <= 971) by lia.
  assert (M1 : shr_m r1 < 2 ^ 53).
  { rewrite Hm1. apply div_pow2_lt; try lia.
    apply Z.lt_le_trans with (1 := Uq). apply Z.pow_le_mono_r; lia. }
  pose proof (round_nearest_even_bounds (shr_m r1) (loc_of_shr_record r1)) as B.
  apply finish_fits; unfold etop; try lia.
  destruct (Z_le_gt_dec e1 970) as [C|C].
  - (* below the top binade there is room for the carry *)
    assert (2 ^ 54 <= 2 ^ (1024 - e1)) by (apply Z.pow_le_mono_r; lia). lia.
  - (* in the top binade the quotient is exact, or below the largest value *)
    assert (e1 = 971) by lia. replace (1024 - e1) with 53 by lia.
    destruct (Z.eq_dec r 0) as [R0|R0];
      [destruct (Z.eq_dec (q mod 2 ^ k) 0) as [Q0|Q0]|].
    + subst r. rewrite new_location_0 in SE.
      rewrite shr_fexp_exact in SE by (try rewrite fexp_eq; assumption).
      injection SE as <- _.
      cbn [shr_m loc_of_shr_record round_nearest_even] in *. lia.
    + assert (A : shr_m r1 * 2 ^ k < q).
      { rewrite Hm1. pose proof (Z.div_mod q (2 ^ k) ltac:(lia)).
        pose proof (Z.mod_pos_bound q (2 ^ k) ltac:(lia)). lia. }
      assert (A' : shr_m r1 * 2 ^ k * 2 ^ (d2 - 1) < (2 ^ 53 - 1) * 2 ^ s)
        by nia.
      assert (A'' : 2 ^ s <= 2 ^ (k + (d2 - 1)))
        by (apply Z.pow_le_mono_r; lia).
      rewrite Z.pow_add_r in A'' by lia. nia.
    + assert (A : shr_m r1 * 2 ^ k <= q).
      { rewrite Hm1. pose proof (Z.div_mod q (2 ^ k) ltac:(lia)).
        pose proof (Z.mod_pos_bound q (2 ^ k) ltac:(lia)). lia. }
      assert (A' : shr_m r1 * 2 ^ k * 2 ^ (d2 - 1) < (2 ^ 53 - 1) * 2 ^ s)
        by nia.
      assert (A'' : 2 ^ s <= 2 ^ (k + (d2 - 1)))
        by (apply Z.pow_le_mono_r; lia).
      rewrite Z.pow_add_r in A'' by lia. nia.
Qed.

(** The sign matters: the largest number minus its opposite overflows. *)
Remark sub_overflows_across_signs :
  fuel_ok (SFopp (SFmax_float prec emax)) = false
  /\ sub (SFmax_float prec emax) (SFopp (SFmax_float prec emax))
     = S754_infinity false.
Proof. split; vm_compute; reflexivity. Qed.

(** The rate of lines 109-111, in numbers: a quotient of a difference of
    fuel levels by a positive number of seconds, or zero. *)
Lemma rate_fits (a b : double) (t : Z) :
  fuel_ok a = true -> fuel_ok b = true ->
  fits (if gt0 (of_Z t) then div (sub a b) (of_Z t) else zero).
Proof.
  intros Ha Hb. rewrite gt0_of_Z. destruct (Z.ltb_spec 0 t) as [H|H].
  - apply div_fits; [now apply sub_fits|now apply of_Z_pos].
  - exact I.
Qed.

Lemma fits_finite (x : double) : fits x -> is_finite x = true.
Proof. destruct x; cbn; intros H; try contradiction; reflexivity. Qed.

End DoubleFacts.
(** ** The C library: [struct tm], [difftime], [asctime] *)

Module Libc.

Definition time_t : Type := Z.

Record tm : Type := {
  tm_sec : Z;
  tm_min : Z;
  tm_hour : Z;
  tm_mday : Z;
  tm_mon : Z;
  tm_year : Z;
  tm_wday : Z;
  tm_yday : Z;
  tm_isdst : Z
}.

(** [difftime(time1, time0)]: the difference in seconds, as a [double]. *)
Definition difftime (time1 time0 : time_t) : double := of_Z (time1 - time0)%Z.

Definition wday_name : list string :=
  ["Sun"; "Mon"; "Tue"; "Wed"; "Thu"; "Fri"; "Sat"].

Definition mon_name : list string :=
  ["Jan"; "Feb"; "Mar"; "Apr"; "May"; "Jun";
   "Jul"; "Aug"; "Sep"; "Oct"; "Nov"; "Dec"].

Definition name_at (names : list string) (i : Z) : string :=
  if (i <? 0)%Z then "???" else nth (Z.to_nat i) names "???".

Fixpoint replicate (n : nat) (c : ascii) : string :=
  match n with
  | O => EmptyString
  | S n' => String c (replicate n' c)
  end.

Definition pad_left (c : ascii) (width : nat) (s : string) : string :=
  replicate (width - String.length s) c ++ s.

(** [%d], [%3d] and [%.2d] of [printf]. *)
Definition fmt_d (z : Z) : string := NilZero.string_of_int (Z.to_int z).

Definition fmt_3d (z : Z) : string := pad_left " " 3 (fmt_d z).

Definition fmt_02d (z : Z) : string :=
  (if (z <? 0)%Z then "-" else EmptyString) ++ pad_left "0" 2 (fmt_d (Z.abs z)).

(** The 24 characters [asctime] writes before its newline:
    [Www Mmm dd hh:mm:ss yyyy]. *)
Definition asctime_text (t : tm) : string :=
  name_at wday_name (tm_wday t) ++ " " ++ name_at mon_name (tm_mon t)
  ++ fmt_3d (tm_mday t) ++ " " ++ fmt_02d (tm_hour t) ++ ":"
  ++ fmt_02d (tm_min t) ++ ":" ++ fmt_02d (tm_sec t) ++ " "
  ++ fmt_d (1900 + tm_year t)%Z.

(** [asctime], as ISO C defines it: the format
    ["%.3s %.3s%3d %.2d:%.2d:%.2d %d\n"], whose result ends with a newline. *)
Definition asctime (t : tm) : string := asctime_text t ++ Str.nl.

End Libc.

Import Libc.

(** ** The state of one connection *)

(** [struct FlightData] and its constructor. *)
Record FlightData : Type := {
  startTime : time_t;
  startFuel : double;
  lastTime : time_t;
  lastFuel : double;
  firstData : bool
}.

Definition FlightData_init : FlightData :=
  {| startTime := 0%Z; startFuel := zero; lastTime := 0%Z; lastFuel := zero;
     firstData := true |}.

(** [TelemetryDataPoint] of [Parse.h]: the two fields [handleClient] reads. *)
Record TelemetryDataPoint : Type := {
  timestamp : tm;
  fuelRemaining : double
}.

(** A reading as the tracker sees it: the normalised [struct tm] that
    [mktime] leaves in [dataPoint.timestamp], the calendar time it returns,
    and the fuel level. *)
Record Reading : Type := {
  r_stamp : tm;
  r_time : time_t;
  r_fuel : double
}.

(** What one locked [cout << ... << endl] statement writes. *)
Inductive Output : Type :=
| Connected (uniqueID : string)
| ParseFailed (line : string)
| Consumption (uniqueID : string) (timestamp : tm)
    (currentFuel consumptionRate : double)
| FlightEnded (uniqueID : string) (averageConsumption : double).

(** The local variables of [handleClient] while it streams, with the lines
    written to [cout] so far and, as a history variable, the records the
    inner loop has split off the buffer ([framed], in arrival order). *)
Record Session : Type := {
  flight : FlightData;
  recvBuffer : string;
  cout : list Output;
  framed : list string
}.

(** How [handleClient] ends: the peer went away before the identifier line
    was complete (nothing is written), or the session ran to its summary. *)
Inductive Run : Type :=
| Dropped (recvBuffer : string)
| Completed (uniqueID : string) (s : Session).

(** One [recv]: the block delivered and the rest of the socket's future, or
    [None] when the call returns no bytes. *)
Definition socket : Type := list string.

Definition recv (sock : socket) : option (string * socket) :=
  match sock with
  | [] => None
  | buffer :: sock' => if Str.empty buffer then None else Some (buffer, sock')
  end.

Section Server.

(** [trim] and [parseTelemetryData] of [Parse.h]: [trim] returns the
    trimmed copy of its argument, and the parser's result is [None] when it
    returns [false], the data point it fills otherwise; neither changes
    [line].  [mktime] gives the calendar time and the normalised
    [struct tm] it writes back; [show_double] is [operator<<] on a
    [double]. *)
Variable trim : string -> string.
Variable parseTelemetryData : string -> option TelemetryDataPoint.
Variable mktime : tm -> time_t * tm.
Variable show_double : double -> string.

(** The text of each statement, [endl] included. *)
Definition render (o : Output) : string :=
  match o with
  | Connected uniqueID =>
      "Connected client, airplane ID: " ++ uniqueID ++ Str.nl
  | ParseFailed line =>
      "Failed to parse telemetry data: " ++ line ++ Str.nl
  | Consumption uniqueID timestamp currentFuel rate =>
      "Airplane " ++ uniqueID ++ " | " ++ asctime timestamp
      ++ " Fuel Remaining: " ++ show_double currentFuel
      ++ " | Current Consumption: " ++ show_double rate
      ++ " fuel/sec" ++ Str.nl
  | FlightEnded uniqueID average =>
      "Flight for airplane " ++ uniqueID
      ++ " ended. Average Fuel Consumption: "
      ++ show_double average ++ " fuel/sec" ++ Str.nl
  end.

(** The rate of lines 109-111 and the average of lines 127-129. *)
Definition consumptionRate (lastFuel currentFuel : double)
    (lastTime currentTime : time_t) : double :=
  let fuelConsumed := sub lastFuel currentFuel in
  let timeDiff := difftime currentTime lastTime in
  if gt0 timeDiff then div fuelConsumed timeDiff else zero.

Definition averageConsumption (f : FlightData) : double :=
  let totalFuelConsumed := sub (startFuel f) (lastFuel f) in
  let totalTime := difftime (lastTime f) (startTime f) in
  if gt0 totalTime then div totalFuelConsumed totalTime else zero.

(** Lines 97-122: one parsed reading against the tracker. *)
Definition track (uniqueID : string) (dataPoint : TelemetryDataPoint)
    (f : FlightData) : FlightData * list Output :=
  let '(currentTime, timestamp') := mktime (timestamp dataPoint) in
  let currentFuel := fuelRemaining dataPoint in
  if firstData f then
    ({| startTime := currentTime; startFuel := currentFuel;
        lastTime := currentTime; lastFuel := currentFuel;
        firstData := false |}, [])
  else
    ({| startTime := startTime f; startFuel := startFuel f;
        lastTime := currentTime; lastFuel := currentFuel;
        firstData := firstData f |},
     [Consumption uniqueID timestamp' currentFuel
        (consumptionRate (lastFuel f) currentFuel (lastTime f) currentTime)]).

(** Lines 85-122: the body of the inner loop on one record. *)
Definition process_line (uniqueID line : string)
    (st : FlightData * list Output) : FlightData * list Output :=
  let '(f, out) := st in
  if Str.empty (trim line) then (f, out)
  else
    match parseTelemetryData line with
    | None => (f, out ++ [ParseFailed line])%list
    | Some dataPoint =>
        let '(f', written) := track uniqueID dataPoint f in
        (f', out ++ written)%list
    end.

(** One turn of the inner loop (lines 82-122), entered with [lineEnd] the
    index of the first newline of the buffer. *)
Definition turn (uniqueID : string) (lineEnd : nat) (s : Session) : Session :=
  let line := Str.substr0 (recvBuffer s) lineEnd in
  let '(f, out) := process_line uniqueID line (flight s, cout s) in
  {| flight := f;
     recvBuffer := Str.erase0 (recvBuffer s) (lineEnd + 1);
     cout := out;
     framed := (framed s ++ [line])%list |}.

(** Lines 81-123: the inner loop.  Each turn removes at least one byte, so
    the length of the buffer bounds the number of turns. *)
Fixpoint drain (turns : nat) (uniqueID : string) (s : Session) : Session :=
  match turns with
  | O => s
  | S turns' =>
      match Str.find Str.NL (recvBuffer s) with
      | None => s
      | Some lineEnd => drain turns' uniqueID (turn uniqueID lineEnd s)
      end
  end.

Definition process_buffer (uniqueID : string) (s : Session) : Session :=
  drain (String.length (recvBuffer s)) uniqueID s.

(** Lines 76-77: [recvBuffer += buffer], on a NUL-terminated [buffer]. *)
Definition deliver (buffer : string) (s : Session) : Session :=
  {| flight := flight s;
     recvBuffer := recvBuffer s ++ Str.c_str buffer;
     cout := cout s;
     framed := framed s |}.

(** Lines 75-124: the outer loop, [while (recv(...) > 0)]; see
    [telemetry_loop_recv]. *)
Fixpoint telemetry_loop (uniqueID : string) (sock : socket) (s : Session)
    : Session :=
  match sock with
  | [] => s
  | buffer :: sock' =>
      if Str.empty buffer then s
      else telemetry_loop uniqueID sock'
             (process_buffer uniqueID (deliver buffer s))
  end.

(** Lines 54-62: read until the buffer holds a newline; the second
    component is [None] when [recv] returns no bytes first, and the rest of
    the socket otherwise.  See [read_id_recv]. *)
Fixpoint read_id (sock : socket) (recvBuffer : string)
    : string * option socket :=
  match Str.find Str.NL recvBuffer with
  | Some _ => (recvBuffer, Some sock)
  | None =>
      match sock with
      | [] => (recvBuffer, None)
      | buffer :: sock' =>
          if Str.empty buffer then (recvBuffer, None)
          else read_id sock' (recvBuffer ++ Str.c_str buffer)
      end
  end.

(** Lines 63-72: the session as the streaming loop finds it. *)
Definition connect (recvBuffer : string) : string * Session :=
  let '(uniqueID, rest) :=
    match Str.find Str.NL recvBuffer with
    | Some pos => (Str.substr0 recvBuffer pos, Str.erase0 recvBuffer (pos + 1))
    | None => (recvBuffer, recvBuffer)
    end in
  (uniqueID,
   {| flight := FlightData_init; recvBuffer := rest;
      cout := [Connected uniqueID]; framed := [] |}).

(** Lines 46-124, up to the end of the stream.  After [read_id] the buffer
    holds a newline ([read_id_newline] below); were it not so, [pos] would
    be [npos]: [substr] would take the whole buffer and [erase(0, npos + 1)]
    nothing. *)
Definition run (sock : socket) : Run :=
  match read_id sock EmptyString with
  | (recvBuffer, None) => Dropped recvBuffer
  | (recvBuffer, Some sock') =>
      let '(uniqueID, s0) := connect recvBuffer in
      Completed uniqueID (telemetry_loop uniqueID sock' s0)
  end.

(** Everything [handleClient] writes to [cout]. *)
Definition handleClient (sock : socket) : list Output :=
  match run sock with
  | Dropped _ => []
  | Completed uniqueID s =>
      (cout s ++ [FlightEnded uniqueID (averageConsumption (flight s))])%list
  end.

Definition console (sock : socket) : string :=
  Str.concat (map render (handleClient sock)).

(** *** Readings, and what the session has done so far *)

(** The guards of lines 87-95: the record reaches the tracker. *)
Definition accept (line : string) : option TelemetryDataPoint :=
  if Str.empty (trim line) then None else parseTelemetryData line.

(** Lines 98-99: the reading the tracker sees. *)
Definition reading_of (dataPoint : TelemetryDataPoint) : Reading :=
  let '(currentTime, timestamp') := mktime (timestamp dataPoint) in
  {| r_stamp := timestamp'; r_time := currentTime;
     r_fuel := fuelRemaining dataPoint |}.

(** The readings accepted among the records framed so far, in order. *)
Fixpoint accepted (lines : list string) : list Reading :=
  match lines with
  | [] => []
  | line :: lines' =>
      match accept line with
      | Some dataPoint => reading_of dataPoint :: accepted lines'
      | None => accepted lines'
      end
  end.

(** The tracker after the readings [rs]: the first one is the start, the
    latest one is the last. *)
Definition flight_of (rs : list Reading) : FlightData :=
  match rs with
  | [] => FlightData_init
  | r0 :: rest =>
      {| startTime := r_time r0; startFuel := r_fuel r0;
         lastTime := r_time (last rest r0); lastFuel := r_fuel (last rest r0);
         firstData := false |}
  end.

(** The line written for the reading [cur] that follows [prev]. *)
Definition event_for (uniqueID : string) (prev cur : Reading) : Output :=
  Consumption uniqueID (r_stamp cur) (r_fuel cur)
    (consumptionRate (r_fuel prev) (r_fuel cur) (r_time prev) (r_time cur)).

Fixpoint events_from (uniqueID : string) (prev : Reading) (rs : list Reading)
    : list Output :=
  match rs with
  | [] => []
  | r :: rs' => event_for uniqueID prev r :: events_from uniqueID r rs'
  end.

Definition session_events (uniqueID : string) (rs : list Reading)
    : list Output :=
  match rs with
  | [] => []
  | r0 :: rest => events_from uniqueID r0 rest
  end.

Definition is_consumption (o : Output) : bool :=
  match o with
  | Consumption _ _ _ _ => true
  | _ => false
  end.

Definition is_failure (o : Output) : bool :=
  match o with
  | ParseFailed _ => true
  | _ => false
  end.

(** The identifier a statement prints, if it prints one. *)
Definition names (o : Output) : option string :=
  match o with
  | Connected uniqueID | Consumption uniqueID _ _ _
  | FlightEnded uniqueID _ => Some uniqueID
  | ParseFailed _ => None
  end.

(** The states the two loops pass through: a block is appended to the
    buffer, or the inner loop takes one turn. *)
Inductive step (uniqueID : string) : Session -> Session -> Prop :=
| step_recv (s : Session) (buffer : string) :
    Str.empty buffer = false -> step uniqueID s (deliver buffer s)
| step_turn (s : Session) (lineEnd : nat) :
    Str.find Str.NL (recvBuffer s) = Some lineEnd ->
    step uniqueID s (turn uniqueID lineEnd s).

Inductive reachable (uniqueID : string) : Session -> Prop :=
| reach_connect (recvBuffer : string) :
    fst (connect recvBuffer) = uniqueID ->
    reachable uniqueID (snd (connect recvBuffer))
| reach_step (s s' : Session) :
    reachable uniqueID s -> step uniqueID s s' -> reachable uniqueID s'.

(** The bytes the socket delivers before it ends, block by block, and the
    stream they form. *)
Fixpoint received (sock : socket) : list string :=
  match sock with
  | [] => []
  | buffer :: sock' =>
      if Str.empty buffer then [] else buffer :: received sock'
  end.

Definition with_newline (record : string) : string := record ++ Str.nl.

(** What the framing has made of the stream: the records split off, each
    with its newline, then the bytes still in the buffer. *)
Definition reassemble (r : Run) : string :=
  match r with
  | Dropped recvBuffer => recvBuffer
  | Completed uniqueID s =>
      Str.concat (map with_newline (uniqueID :: framed s)) ++ recvBuffer s
  end.

Definition no_nul (sock : socket) : Prop :=
  Forall (fun buffer => Str.find Str.NUL buffer = None) sock.


(** *** The two loops, in terms of [recv] *)

Lemma telemetry_loop_recv (uniqueID : string) (sock : socket) (s : Session) :
  telemetry_loop uniqueID sock s =
  match recv sock with
  | None => s
  | Some (buffer, sock') =>
      telemetry_loop uniqueID sock'
        (process_buffer uniqueID (deliver buffer s))
  end.
Proof.
  destruct sock as [|buffer sock']; [reflexivity|].
  cbn [telemetry_loop recv]. now destruct (Str.empty buffer).
Qed.

Lemma read_id_recv (sock : socket) (recvBuffer : string) :
  read_id sock recvBuffer =
  match Str.find Str.NL recvBuffer with
  | Some _ => (recvBuffer, Some sock)
  | None =>
      match recv sock with
      | None => (recvBuffer, None)
      | Some (buffer, sock') =>
          read_id sock' (recvBuffer ++ Str.c_str buffer)
      end
  end.
Proof.
  destruct sock as [|buffer sock']; [reflexivity|].
  cbn [read_id recv]. destruct (Str.find Str.NL recvBuffer); [reflexivity|].
  now destruct (Str.empty buffer).
Qed.

(** *** The loop body, record by record *)

(** The reading the tracker holds as its last one, after [rs]. *)
Definition latest (prev : option Reading) (rs : list Reading)
    : option Reading :=
  fold_left (fun _ r => Some r) rs prev.

(** What a sequence of records adds to [cout], [prev] being the last
    reading before them. *)
Fixpoint log_from (uniqueID : string) (prev : option Reading)
    (lines : list string) : list Output :=
  match lines with
  | [] => []
  | line :: lines' =>
      if Str.empty (trim line) then log_from uniqueID prev lines'
      else
        match parseTelemetryData line with
        | None => ParseFailed line :: log_from uniqueID prev lines'
        | Some dataPoint =>
            let r := reading_of dataPoint in
            (match prev with
             | None => []
             | Some p => [event_for uniqueID p r]
             end ++ log_from uniqueID (Some r) lines')%list
        end
  end.

(** The tracker agrees with the records framed so far, and [cout] holds
    exactly what they call for. *)
Definition consistent (uniqueID : string) (s : Session) : Prop :=
  flight s = flight_of (accepted (framed s))
  /\ cout s = Connected uniqueID :: log_from uniqueID None (framed s).

Lemma accepted_app (a b : list string) :
  accepted (a ++ b)%list = (accepted a ++ accepted b)%list.
Proof.
  induction a as [|l a IH]; simpl; [reflexivity|].
  destruct (accept l); simpl; now rewrite IH.
Qed.

Lemma latest_app (prev : option Reading) (a b : list Reading) :
  latest prev (a ++ b)%list = latest (latest prev a) b.
Proof. unfold latest. now rewrite fold_left_app. Qed.

Lemma last_cons_any (rs : list Reading) : forall r d : Reading,
  last (r :: rs) d = last rs r.
Proof.
  induction rs as [|r' rs IH]; intros r d; [reflexivity|].
  change (last (r :: r' :: rs) d) with (last (r' :: rs) d).
  now rewrite !IH.
Qed.

Lemma latest_some (rs : list Reading) : forall r0 : Reading,
  latest (Some r0) rs = Some (last rs r0).
Proof.
  induction rs as [|r rs IH]; intros r0; [reflexivity|].
  cbn [latest fold_left]. fold (latest (Some r) rs).
  now rewrite IH, last_cons_any.
Qed.

Lemma latest_none (rs : list Reading) :
  latest None rs = match rs with
                   | [] => None
                   | r0 :: rest => Some (last rest r0)
                   end.
Proof. destruct rs as [|r0 rest]; [reflexivity|]. apply latest_some. Qed.

Lemma log_from_app (uniqueID : string) (a b : list string) :
  forall prev : option Reading,
  log_from uniqueID prev (a ++ b)%list =
  (log_from uniqueID prev a
   ++ log_from uniqueID (latest prev (accepted a)) b)%list.
Proof.
  induction a as [|l a IH]; intros prev; [reflexivity|].
  cbn [app log_from accepted]. unfold accept.
  destruct (Str.empty (trim l)); [apply IH|].
  destruct (parseTelemetryData l) as [d|].
  - rewrite IH, <- app_assoc. reflexivity.
  - rewrite IH. reflexivity.
Qed.

Lemma flight_of_snoc (rs : list Reading) (r : Reading) :
  flight_of (rs ++ [r])%list =
  match rs with
  | [] => {| startTime := r_time r; startFuel := r_fuel r;
             lastTime := r_time r; lastFuel := r_fuel r; firstData := false |}
  | r0 :: _ => {| startTime := r_time r0; startFuel := r_fuel r0;
                  lastTime := r_time r; lastFuel := r_fuel r;
                  firstData := false |}
  end.
Proof.
  destruct rs as [|r0 rest]; [reflexivity|].
  cbn [app flight_of]. now rewrite last_last.
Qed.

(** [track] on a tracker that agrees with the readings [rs]. *)
Lemma track_flight_of (uniqueID : string) (d : TelemetryDataPoint)
    (rs : list Reading) :
  track uniqueID d (flight_of rs) =
  (flight_of (rs ++ [reading_of d])%list,
   match latest None rs with
   | None => []
   | Some p => [event_for uniqueID p (reading_of d)]
   end).
Proof.
  rewrite flight_of_snoc, latest_none. unfold track, reading_of, event_for.
  destruct (mktime (timestamp d)) as [t stamp].
  destruct rs as [|r0 rest]; reflexivity.
Qed.

Lemma turn_consistent (uniqueID : string) (lineEnd : nat) (s : Session) :
  consistent uniqueID s -> consistent uniqueID (turn uniqueID lineEnd s).
Proof.
  intros [Hf Hc]. unfold consistent, turn, process_line.
  set (line := Str.substr0 (recvBuffer s) lineEnd).
  rewrite Hf, Hc.
  assert (A : accepted [line] = match accept line with
                                | Some d => [reading_of d]
                                | None => []
                                end)
    by (cbn [accepted]; now destruct (accept line)).
  assert (L : forall prev, log_from uniqueID prev [line] =
    if Str.empty (trim line) then []
    else match parseTelemetryData line with
         | None => [ParseFailed line]
         | Some d => match prev with
                     | None => []
                     | Some p => [event_for uniqueID p (reading_of d)]
                     end
         end).
  { intros prev. cbn [log_from].
    destruct (Str.empty (trim line)); [reflexivity|].
    destruct (parseTelemetryData line); [|reflexivity].
    now rewrite app_nil_r. }
  unfold accept in A.
  destruct (Str.empty (trim line)) eqn:E.
  - cbn [flight cout framed].
    rewrite accepted_app, log_from_app, A, L, !app_nil_r. now split.
  - destruct (parseTelemetryData line) as [d|] eqn:P.
    + rewrite track_flight_of. cbn [flight cout framed].
      rewrite accepted_app, log_from_app, A, L. now split.
    + cbn [flight cout framed].
      rewrite accepted_app, log_from_app, A, L, app_nil_r. now split.
Qed.

Lemma connect_consistent (recvBuffer : string) :
  consistent (fst (connect recvBuffer)) (snd (connect recvBuffer)).
Proof.
  unfold connect.
  destruct (Str.find Str.NL recvBuffer); cbn; now split.
Qed.

(** Every state of a session is consistent. *)
Lemma reachable_consistent (uniqueID : string) (s : Session) :
  reachable uniqueID s -> consistent uniqueID s.
Proof.
  induction 1 as [buf E|s s' R IH St].
  - rewrite <- E. apply connect_consistent.
  - destruct St as [s buffer _|s lineEnd _]; [exact IH|].
    now apply turn_consistent.
Qed.

Lemma drain_reachable (uniqueID : string) (turns : nat) : forall s : Session,
  reachable uniqueID s -> reachable uniqueID (drain turns uniqueID s).
Proof.
  induction turns as [|n IH]; intros s R; [exact R|]. cbn [drain].
  destruct (Str.find Str.NL (recvBuffer s)) as [lineEnd|] eqn:F; [|exact R].
  apply IH. apply reach_step with (1 := R). now apply step_turn.
Qed.

Lemma telemetry_loop_reachable (uniqueID : string) (sock : socket) :
  forall s : Session,
  reachable uniqueID s -> reachable uniqueID (telemetry_loop uniqueID sock s).
Proof.
  induction sock as [|buffer sock IH]; intros s R; [exact R|].
  cbn [telemetry_loop]. destruct (Str.empty buffer) eqn:E; [exact R|].
  apply IH. apply drain_reachable.
  apply reach_step with (1 := R). now apply step_recv.
Qed.

(** The state [handleClient] ends in is one of them. *)
Lemma run_reachable (sock : socket) (uniqueID : string) (s : Session) :
  run sock = Completed uniqueID s -> reachable uniqueID s.
Proof.
  unfold run. destruct (read_id sock EmptyString) as [buf [sock'|]];
    [|discriminate].
  pose proof (reach_connect (fst (connect buf)) buf eq_refl) as R.
  destruct (connect buf) as [id s0]. cbn [fst snd] in R.
  intros H. injection H as <- <-. now apply telemetry_loop_reachable.
Qed.

(** *** Framing *)

Definition stream (sock : socket) : string :=
  Str.concat (map Str.c_str (received sock)).

(** The records split off and the buffer, put back together. *)
Definition framing (s : Session) : string :=
  Str.concat (map with_newline (framed s)) ++ recvBuffer s.

Lemma turn_framing (uniqueID : string) (lineEnd : nat) (s : Session) :
  Str.find Str.NL (recvBuffer s) = Some lineEnd ->
  framing (turn uniqueID lineEnd s) = framing s.
Proof.
  intros F. unfold framing, turn.
  destruct (process_line uniqueID _ _) as [f out]. cbn [framed recvBuffer].
  rewrite map_app, Str.concat_app. cbn [map Str.concat].
  rewrite Str.app_nil_r, Str.app_assoc. f_equal.
  destruct (Str.find_split _ _ _ F) as [E _]. rewrite E at 3.
  unfold with_newline, Str.nl. now rewrite Str.app_assoc.
Qed.

Lemma drain_framing (uniqueID : string) (turns : nat) : forall s : Session,
  framing (drain turns uniqueID s) = framing s.
Proof.
  induction turns as [|n IH]; intros s; [reflexivity|]. cbn [drain].
  destruct (Str.find Str.NL (recvBuffer s)) as [lineEnd|] eqn:F; [|reflexivity].
  now rewrite IH, turn_framing.
Qed.

Lemma turn_shorter (uniqueID : string) (lineEnd : nat) (s : Session) :
  Str.find Str.NL (recvBuffer s) = Some lineEnd ->
  (String.length (recvBuffer (turn uniqueID lineEnd s))
   < String.length (recvBuffer s))%nat.
Proof.
  intros F. unfold turn.
  destruct (process_line uniqueID _ _) as [f out]. cbn [recvBuffer].
  rewrite Str.length_erase0. pose proof (Str.find_lt _ _ _ F). lia.
Qed.

(** The inner loop stops because the buffer holds no newline any more: the
    bound on its turns is never what ends it. *)
Lemma drain_complete (uniqueID : string) (turns : nat) : forall s : Session,
  (String.length (recvBuffer s) <= turns)%nat ->
  Str.find Str.NL (recvBuffer (drain turns uniqueID s)) = None.
Proof.
  induction turns as [|n IH]; intros s L.
  - cbn [drain]. destruct (recvBuffer s); [reflexivity|simpl in L; lia].
  - cbn [drain].
    destruct (Str.find Str.NL (recvBuffer s)) as [lineEnd|] eqn:F; [|exact F].
    apply IH. pose proof (turn_shorter uniqueID lineEnd s F). lia.
Qed.

Lemma process_buffer_complete (uniqueID : string) (s : Session) :
  Str.find Str.NL (recvBuffer (process_buffer uniqueID s)) = None.
Proof. now apply drain_complete. Qed.

Lemma telemetry_loop_framing (uniqueID : string) (sock : socket) :
  forall s : Session,
  framing (telemetry_loop uniqueID sock s) = framing s ++ stream sock.
Proof.
  unfold stream.
  induction sock as [|buffer sock IH]; intros s; cbn [telemetry_loop received].
  - now rewrite Str.app_nil_r.
  - destruct (Str.empty buffer); [now rewrite Str.app_nil_r|].
    rewrite IH. unfold process_buffer. rewrite drain_framing.
    unfold framing, deliver. cbn [framed recvBuffer map Str.concat].
    now rewrite !Str.app_assoc.
Qed.

(** Once a block has arrived after the identifier, no complete record is
    left in the buffer. *)
Lemma telemetry_loop_complete (uniqueID : string) (sock : socket) :
  forall s : Session,
  received sock <> [] ->
  Str.find Str.NL (recvBuffer (telemetry_loop uniqueID sock s)) = None.
Proof.
  induction sock as [|buffer sock IH]; intros s N; [now elim N|].
  cbn [telemetry_loop received] in *.
  destruct (Str.empty buffer); [now elim N|].
  destruct (received sock) as [|b bs] eqn:R.
  - destruct sock as [|b' sock']; cbn [telemetry_loop].
    + apply process_buffer_complete.
    + cbn [received] in R. destruct (Str.empty b'); [|discriminate].
      apply process_buffer_complete.
  - apply IH. discriminate.
Qed.

Lemma read_id_spec (sock : socket) : forall recvBuffer : string,
  match read_id sock recvBuffer with
  | (buf, Some sock') =>
      buf ++ stream sock' = recvBuffer ++ stream sock
      /\ Str.find Str.NL buf <> None
  | (buf, None) =>
      buf = recvBuffer ++ stream sock /\ Str.find Str.NL buf = None
  end.
Proof.
  unfold stream.
  induction sock as [|buffer sock IH]; intros buf; cbn [read_id received].
  - destruct (Str.find Str.NL buf) eqn:F.
    + split; [reflexivity|]. rewrite F. discriminate.
    + cbn. now rewrite Str.app_nil_r.
  - destruct (Str.find Str.NL buf) eqn:F.
    + cbn [received]. split; [reflexivity|]. rewrite F. discriminate.
    + destruct (Str.empty buffer).
      * cbn. now rewrite Str.app_nil_r.
      * specialize (IH (buf ++ Str.c_str buffer)).
        destruct (read_id sock (buf ++ Str.c_str buffer)) as [b [sock'|]];
          cbn [map Str.concat]; now rewrite <- Str.app_assoc.
Qed.

(** After [read_id] succeeds the buffer holds a newline. *)
Lemma read_id_newline (sock sock' : socket) (buf : string) :
  read_id sock EmptyString = (buf, Some sock') -> Str.find Str.NL buf <> None.
Proof.
  intros H. pose proof (read_id_spec sock EmptyString) as S.
  rewrite H in S. apply S.
Qed.

Lemma connect_framing (buf : string) :
  Str.find Str.NL buf <> None ->
  with_newline (fst (connect buf)) ++ framing (snd (connect buf)) = buf
  /\ Str.find Str.NL (fst (connect buf)) = None.
Proof.
  intros N. unfold connect.
  destruct (Str.find Str.NL buf) as [pos|] eqn:F; [|now elim N].
  cbn [fst snd]. unfold framing. cbn [framed recvBuffer map Str.concat].
  destruct (Str.find_split _ _ _ F) as [E Hn]. split; [|exact Hn].
  unfold with_newline, Str.nl. rewrite Str.app_assoc. cbn [append].
  now rewrite <- E.
Qed.

(** The framing of a whole run gives back the stream received. *)
Lemma run_framing (sock : socket) : reassemble (run sock) = stream sock.
Proof.
  unfold run. pose proof (read_id_spec sock EmptyString) as S.
  destruct (read_id sock EmptyString) as [buf [sock'|]]; cbn [append] in S.
  - destruct S as [E N]. destruct (connect_framing buf N) as [C _].
    destruct (connect buf) as [id s0]. cbn [fst snd] in C.
    cbn [reassemble map Str.concat]. rewrite Str.app_assoc.
    fold (framing (telemetry_loop id sock' s0)).
    rewrite telemetry_loop_framing, <- Str.app_assoc, C. exact E.
  - apply S.
Qed.

(** The identifier and the records hold no newline. *)
Lemma run_records (sock : socket) (uniqueID : string) (s : Session) :
  run sock = Completed uniqueID s ->
  Forall (fun record => Str.find Str.NL record = None) (uniqueID :: framed s).
Proof.
  intros Hrun. constructor.
  - unfold run in Hrun.
    destruct (read_id sock EmptyString) as [buf [sock'|]] eqn:Hid;
      [|discriminate].
    destruct (connect_framing buf (read_id_newline _ _ _ Hid)) as [_ Hn].
    destruct (connect buf) as [id s0]. injection Hrun as <- _. exact Hn.
  - pose proof (run_reachable _ _ _ Hrun) as R. clear Hrun.
    induction R as [buf E|s s' R IH St].
    + unfold connect. destruct (Str.find Str.NL buf); constructor.
    + destruct St as [s b _|s lineEnd F]; [exact IH|].
      unfold turn. destruct (process_line uniqueID _ _).
      cbn [framed]. apply Forall_app. split; [exact IH|].
      constructor; [|constructor]. now destruct (Str.find_split _ _ _ F).
Qed.

Lemma stream_no_nul (sock : socket) :
  no_nul sock -> stream sock = Str.concat (received sock).
Proof.
  unfold stream. induction 1 as [|buffer sock H _ IH]; [reflexivity|].
  cbn [received]. destruct (Str.empty buffer); [reflexivity|].
  cbn [map Str.concat]. now rewrite IH, Str.c_str_id.
Qed.

(** *** What [cout] holds *)

Lemma consumptions_log_from (uniqueID : string) (lines : list string) :
  forall prev : option Reading,
  filter is_consumption (log_from uniqueID prev lines) =
  match prev with
  | None => session_events uniqueID (accepted lines)
  | Some p => events_from uniqueID p (accepted lines)
  end.
Proof.
  induction lines as [|l lines IH]; intros prev; cbn [log_from accepted].
  - now destruct prev.
  - unfold accept. destruct (Str.empty (trim l)); [apply IH|].
    destruct (parseTelemetryData l) as [d|];
      [|cbn [filter is_consumption]; apply IH].
    rewrite filter_app, IH. now destruct prev.
Qed.

Lemma failures_log_from (uniqueID : string) (lines : list string) :
  forall prev prev' : option Reading,
  filter is_failure (log_from uniqueID prev lines) =
  filter is_failure (log_from uniqueID prev' lines).
Proof.
  induction lines as [|l lines IH]; intros prev prev'; cbn [log_from];
    [reflexivity|].
  destruct (Str.empty (trim l)); [apply IH|].
  destruct (parseTelemetryData l) as [d|].
  - rewrite !filter_app. f_equal. now destruct prev, prev'.
  - cbn [filter is_failure]. f_equal. apply IH.
Qed.

Lemma names_log_from (uniqueID : string) (lines : list string) :
  forall (prev : option Reading) (o : Output),
  In o (log_from uniqueID prev lines) ->
  if is_failure o then names o = None else names o = Some uniqueID.
Proof.
  induction lines as [|l lines IH]; intros prev o; cbn [log_from];
    [intros []|].
  destruct (Str.empty (trim l)); [apply IH|].
  destruct (parseTelemetryData l) as [d|].
  - intros H. apply in_app_or in H. destruct H as [H|H]; [|now apply IH in H].
    destruct prev as [p|]; [|now elim H].
    destruct H as [<-|[]]. reflexivity.
  - intros [<-|H]; [reflexivity|now apply IH in H].
Qed.

Lemma events_from_nth (uniqueID : string) (rs : list Reading) :
  forall (p prev cur : Reading) (i : nat),
  nth_error (p :: rs) i = Some prev ->
  nth_error (p :: rs) (S i) = Some cur ->
  nth_error (events_from uniqueID p rs) i = Some (event_for uniqueID prev cur).
Proof.
  induction rs as [|r rs IH]; intros p prev cur i Hp Hc.
  - cbn in Hc. destruct i; discriminate.
  - destruct i as [|i].
    + cbn in Hp, Hc. injection Hp as <-. injection Hc as <-. reflexivity.
    + cbn [events_from nth_error]. apply IH; assumption.
Qed.

Lemma events_from_length (uniqueID : string) (rs : list Reading) :
  forall p : Reading, length (events_from uniqueID p rs) = length rs.
Proof.
  induction rs as [|r rs IH]; intros p; cbn; [|rewrite IH]; reflexivity.
Qed.

Lemma consumptionRate_eq (lastFuel currentFuel : double)
    (lastTime currentTime : time_t) :
  consumptionRate lastFuel currentFuel lastTime currentTime =
  if (lastTime <? currentTime)%Z
  then div (sub lastFuel currentFuel) (difftime currentTime lastTime)
  else zero.
Proof.
  unfold consumptionRate, difftime. rewrite DoubleFacts.gt0_of_Z.
  destruct (Z.ltb_spec 0 (currentTime - lastTime)) as [H|H];
    destruct (Z.ltb_spec lastTime currentTime) as [H'|H']; try lia; reflexivity.
Qed.

Lemma averageConsumption_eq (f : FlightData) :
  averageConsumption f =
  if (startTime f <? lastTime f)%Z
  then div (sub (startFuel f) (lastFuel f))
           (difftime (lastTime f) (startTime f))
  else zero.
Proof.
  unfold averageConsumption, difftime. rewrite DoubleFacts.gt0_of_Z.
  destruct (Z.ltb_spec 0 (lastTime f - startTime f)) as [H|H];
    destruct (Z.ltb_spec (startTime f) (lastTime f)) as [H'|H']; try lia;
    reflexivity.
Qed.

Lemma handleClient_completed (sock : socket) (uniqueID : string) (s : Session) :
  run sock = Completed uniqueID s ->
  handleClient sock =
  (cout s ++ [FlightEnded uniqueID (averageConsumption (flight s))])%list.
Proof. unfold handleClient. now intros ->. Qed.

(** *** Byte strings *)

Lemma find_app_at (c : ascii) (a b : string) :
  Str.find c a = None ->
  Str.find c (a ++ String c b) = Some (String.length a).
Proof.
  induction a as [|x a IH]; cbn [Str.find append String.length].
  - now rewrite Ascii.eqb_refl.
  - destruct (Ascii.eqb x c); [discriminate|].
    destruct (Str.find c a); [discriminate|]. intros _. now rewrite IH.
Qed.

Lemma substr0_app (a b : string) : Str.substr0 (a ++ b) (String.length a) = a.
Proof. induction a as [|x a IH]; cbn; [reflexivity|now rewrite IH]. Qed.

Lemma erase0_app (a b : string) (c : ascii) :
  Str.erase0 (a ++ String c b) (String.length a + 1) = b.
Proof. induction a as [|x a IH]; cbn; [reflexivity|exact IH]. Qed.

Lemma c_str_nonempty (buffer : string) :
  Str.empty (Str.c_str buffer) = false -> Str.empty buffer = false.
Proof. now destruct buffer. Qed.

(** ** The tracker *)

(** C1.  For every accepted reading after the first, the line written for
    it carries the rate [(lastFuel - currentFuel) / (currentTime - lastTime)]
    when the elapsed time is strictly positive and [0] when it is zero or
    negative.  The model is a total function: nothing is raised.  The rate
    is a number, neither an infinity nor a NaN, when the two fuel levels are
    what a reading holds: finite and not negative. *)
Theorem consumption_rate_of_each_reading
    (sock : socket) (uniqueID : string) (s : Session)
    (i : nat) (prev cur : Reading) :
  run sock = Completed uniqueID s ->
  nth_error (accepted (framed s)) i = Some prev ->
  nth_error (accepted (framed s)) (S i) = Some cur ->
  exists rate : double,
    nth_error (filter is_consumption (handleClient sock)) i
    = Some (Consumption uniqueID (r_stamp cur) (r_fuel cur) rate)
    /\ rate = (if (r_time prev <? r_time cur)%Z
               then div (sub (r_fuel prev) (r_fuel cur))
                        (difftime (r_time cur) (r_time prev))
               else zero)
    /\ (DoubleFacts.fuel_ok (r_fuel prev) = true ->
        DoubleFacts.fuel_ok (r_fuel cur) = true ->
        is_finite rate = true /\ is_infinite rate = false).
Proof.
  intros Hrun Hp Hc.
  destruct (reachable_consistent _ _ (run_reachable _ _ _ Hrun)) as [_ Hout].
  exists (consumptionRate (r_fuel prev) (r_fuel cur)
            (r_time prev) (r_time cur)).
  split; [|split].
  - rewrite (handleClient_completed _ _ _ Hrun), filter_app, Hout.
    cbn [filter is_consumption]. rewrite app_nil_r, consumptions_log_from.
    destruct (accepted (framed s)) as [|r0 rest]; [now destruct i|].
    cbn [session_events]. now apply events_from_nth.
  - apply consumptionRate_eq.
  - intros Fp Fc.
    assert (F : is_finite (consumptionRate (r_fuel prev) (r_fuel cur)
                             (r_time prev) (r_time cur)) = true).
    { apply DoubleFacts.fits_finite. unfold consumptionRate, difftime.
      now apply DoubleFacts.rate_fits. }
    split; [exact F|]. now destruct (consumptionRate _ _ _ _).
Qed.

(** C2.  At the end of a session the summary carries
    [(startFuel - lastFuel) / (lastTime - startTime)] when the total time is
    strictly positive and [0] otherwise, [start] and [last] being the first
    and the latest accepted reading; with at most one accepted reading
    [start] equals [last], the total time is zero and the average is [0].
    The summary is always written. *)
Theorem average_at_session_end
    (sock : socket) (uniqueID : string) (s : Session) :
  run sock = Completed uniqueID s ->
  exists average : double,
    handleClient sock = (cout s ++ [FlightEnded uniqueID average])%list
    /\ average = (if (startTime (flight s) <? lastTime (flight s))%Z
                  then div (sub (startFuel (flight s)) (lastFuel (flight s)))
                           (difftime (lastTime (flight s))
                                     (startTime (flight s)))
                  else zero)
    /\ flight s = flight_of (accepted (framed s))
    /\ ((length (accepted (framed s)) <= 1)%nat ->
        startTime (flight s) = lastTime (flight s)
        /\ startFuel (flight s) = lastFuel (flight s)
        /\ difftime (lastTime (flight s)) (startTime (flight s)) = zero
        /\ average = zero).
Proof.
  intros Hrun.
  destruct (reachable_consistent _ _ (run_reachable _ _ _ Hrun)) as [Hf _].
  exists (averageConsumption (flight s)).
  split; [now apply handleClient_completed|].
  split; [apply averageConsumption_eq|]. split; [exact Hf|].
  intros L. rewrite averageConsumption_eq, Hf. unfold difftime.
  destruct (accepted (framed s)) as [|r0 [|r1 rest]]; cbn in L; try lia;
    cbn [flight_of last startTime lastTime startFuel lastFuel FlightData_init];
    rewrite Z.ltb_irrefl, Z.sub_diag; repeat split; reflexivity.
Qed.

(** C3.  A session that accepts [N] readings writes [N - 1] consumption
    lines; and the first accepted reading of a session, taken in any state
    the session can be in, becomes both [start] and [last] and writes
    nothing. *)
Theorem first_reading_and_event_count
    (sock : socket) (uniqueID : string) (s : Session) :
  run sock = Completed uniqueID s ->
  length (filter is_consumption (handleClient sock))
  = (length (accepted (framed s)) - 1)%nat
  /\ forall (s0 : Session) (lineEnd : nat) (d : TelemetryDataPoint),
       reachable uniqueID s0 ->
       accepted (framed s0) = [] ->
       Str.find Str.NL (recvBuffer s0) = Some lineEnd ->
       accept (Str.substr0 (recvBuffer s0) lineEnd) = Some d ->
       let r := reading_of d in
       flight (turn uniqueID lineEnd s0)
       = {| startTime := r_time r; startFuel := r_fuel r;
            lastTime := r_time r; lastFuel := r_fuel r; firstData := false |}
       /\ cout (turn uniqueID lineEnd s0) = cout s0.
Proof.
  intros Hrun. split.
  - destruct (reachable_consistent _ _ (run_reachable _ _ _ Hrun)) as [_ Hout].
    rewrite (handleClient_completed _ _ _ Hrun), filter_app, Hout.
    cbn [filter is_consumption]. rewrite app_nil_r, consumptions_log_from.
    destruct (accepted (framed s)) as [|r0 rest]; [reflexivity|].
    cbn [session_events length]. rewrite events_from_length. lia.
  - intros s0 lineEnd d R0 E0 F A r.
    destruct (reachable_consistent _ _ R0) as [Hf0 Hc0].
    destruct (reachable_consistent _ _
                (reach_step _ _ _ R0 (step_turn _ _ _ F))) as [Hf1 Hc1].
    unfold turn in *.
    destruct (process_line uniqueID _ _) as [f out] eqn:P.
    cbn [flight cout framed] in *.
    rewrite accepted_app, E0 in Hf1. cbn [accepted app] in Hf1.
    rewrite A in Hf1. split; [exact Hf1|].
    rewrite Hc1, Hc0, log_from_app, E0. cbn [latest fold_left log_from].
    unfold accept in A.
    destruct (Str.empty (trim _)); [discriminate|]. rewrite A.
    now rewrite !app_nil_r.
Qed.

(** C7.  In every state a session passes through, [lastTime]/[lastFuel]
    are those of the latest accepted reading and [startTime]/[startFuel]
    those of the first one; no later step of the session changes the
    start. *)
Theorem tracker_invariant (uniqueID : string) (s : Session) :
  reachable uniqueID s ->
  match accepted (framed s) with
  | [] => flight s = FlightData_init
  | first :: rest =>
      startTime (flight s) = r_time first
      /\ startFuel (flight s) = r_fuel first
      /\ lastTime (flight s) = r_time (last rest first)
      /\ lastFuel (flight s) = r_fuel (last rest first)
      /\ forall s' : Session,
           step uniqueID s s' ->
           startTime (flight s') = startTime (flight s)
           /\ startFuel (flight s') = startFuel (flight s)
  end.
Proof.
  intros R. destruct (reachable_consistent _ _ R) as [Hf _].
  destruct (accepted (framed s)) as [|first rest] eqn:A; [exact Hf|].
  rewrite Hf. cbn [flight_of startTime startFuel lastTime lastFuel].
  repeat split; try reflexivity.
  - destruct (reachable_consistent _ _ (reach_step _ _ _ R H)) as [Hf' _].
    rewrite Hf'. destruct H as [s b _|s lineEnd _].
    + cbn [deliver framed]. now rewrite A.
    + unfold turn. destruct (process_line uniqueID _ _).
      cbn [framed]. now rewrite accepted_app, A.
  - destruct (reachable_consistent _ _ (reach_step _ _ _ R H)) as [Hf' _].
    rewrite Hf'. destruct H as [s b _|s lineEnd _].
    + cbn [deliver framed]. now rewrite A.
    + unfold turn. destruct (process_line uniqueID _ _).
      cbn [framed]. now rewrite accepted_app, A.
Qed.

(** ** Framing *)

(** C4 (amended).  When no block received holds a NUL byte, the identifier
    and the records split off the buffer, each followed by a newline, and
    then the bytes left in the buffer, are the stream received, byte for
    byte, however it was cut into blocks; and no record holds a newline. *)
Theorem framing_round_trip (sock : socket) :
  no_nul sock ->
  reassemble (run sock) = Str.concat (received sock)
  /\ match run sock with
     | Dropped _ => True
     | Completed uniqueID s =>
         Forall (fun record => Str.find Str.NL record = None)
                (uniqueID :: framed s)
     end.
Proof.
  intros N. split; [now rewrite run_framing, stream_no_nul|].
  destruct (run sock) as [buf|uniqueID s] eqn:Hrun; [exact I|].
  now apply (run_records sock).
Qed.

(** C5.  A block that brings the identifier line together with telemetry,
    followed by the end of the stream: the telemetry stays in the buffer,
    unread.  [cout] gets the connection line and a summary of no reading,
    whatever records [rest] holds. *)
Theorem records_behind_the_identifier (buffer uniqueID rest : string) :
  Str.c_str buffer = uniqueID ++ Str.nl ++ rest ->
  Str.find Str.NL uniqueID = None ->
  run [buffer]
  = Completed uniqueID
      {| flight := FlightData_init; recvBuffer := rest;
         cout := [Connected uniqueID]; framed := [] |}
  /\ handleClient [buffer] = [Connected uniqueID; FlightEnded uniqueID zero].
Proof.
  intros E N.
  assert (B : Str.empty buffer = false).
  { apply c_str_nonempty. rewrite E. now destruct uniqueID. }
  assert (F : Str.find Str.NL (Str.c_str buffer)
              = Some (String.length uniqueID))
    by (rewrite E; now apply find_app_at).
  assert (Hrun : run [buffer]
                 = Completed uniqueID
                     {| flight := FlightData_init; recvBuffer := rest;
                        cout := [Connected uniqueID]; framed := [] |}).
  { unfold run. cbn [read_id Str.find]. rewrite B. cbn [append read_id].
    rewrite F. unfold connect. rewrite F, E.
    unfold Str.nl. cbn [append]. now rewrite substr0_app, erase0_app. }
  split; [exact Hrun|].
  rewrite (handleClient_completed _ _ _ Hrun). reflexivity.
Qed.

(** C6.  Two sessions whose records differ by one malformed record [bad]
    (not blank, refused by the parser), wherever it stands: the tracker ends
    in the same state, and [cout] differs by exactly the one line that
    reports [bad]; the records after [bad] are processed as they are without
    it. *)
Theorem malformed_record_is_skipped
    (sock1 sock2 : socket) (uniqueID : string) (s1 s2 : Session)
    (pre post : list string) (bad : string) :
  Str.empty (trim bad) = false ->
  parseTelemetryData bad = None ->
  run sock1 = Completed uniqueID s1 ->
  run sock2 = Completed uniqueID s2 ->
  framed s1 = (pre ++ bad :: post)%list ->
  framed s2 = (pre ++ post)%list ->
  flight s1 = flight s2
  /\ accepted (framed s1) = accepted (framed s2)
  /\ (exists before after : list Output,
        cout s1 = (before ++ ParseFailed bad :: after)%list
        /\ cout s2 = (before ++ after)%list)
  /\ length (filter is_failure (handleClient sock1))
     = S (length (filter is_failure (handleClient sock2))).
Proof.
  intros Hb Hp R1 R2 F1 F2.
  destruct (reachable_consistent _ _ (run_reachable _ _ _ R1)) as [Hf1 Hc1].
  destruct (reachable_consistent _ _ (run_reachable _ _ _ R2)) as [Hf2 Hc2].
  assert (A : accepted (framed s1) = accepted (framed s2)).
  { rewrite F1, F2, !accepted_app. cbn [accepted]. unfold accept.
    now rewrite Hb, Hp. }
  assert (L : log_from uniqueID None (framed s1)
              = (log_from uniqueID None pre
                 ++ ParseFailed bad
                 :: log_from uniqueID (latest None (accepted pre)) post)%list).
  { rewrite F1, log_from_app. cbn [log_from]. now rewrite Hb, Hp. }
  assert (L' : log_from uniqueID None (framed s2)
               = (log_from uniqueID None pre
                  ++ log_from uniqueID (latest None (accepted pre)) post)%list)
    by now rewrite F2, log_from_app.
  split; [now rewrite Hf1, Hf2, A|]. split; [exact A|]. split.
  - exists (Connected uniqueID :: log_from uniqueID None pre),
           (log_from uniqueID (latest None (accepted pre)) post).
    now rewrite Hc1, Hc2, L, L'.
  - rewrite (handleClient_completed _ _ _ R1).
    rewrite (handleClient_completed _ _ _ R2).
    rewrite !filter_app, Hc1, Hc2, L, L'. cbn [filter is_failure].
    rewrite !filter_app. cbn [filter is_failure].
    rewrite !length_app. cbn [length]. lia.
Qed.

(** ** The lines written *)

(** C8.  The line written for a reading is broken in two: [asctime] ends
    its text with a newline, so a line break stands between the timestamp
    and [" Fuel Remaining: "], before the one [endl] writes. *)
Theorem consumption_line_is_broken
    (uniqueID : string) (timestamp : tm) (currentFuel rate : double) :
  render (Consumption uniqueID timestamp currentFuel rate)
  = ("Airplane " ++ uniqueID ++ " | " ++ asctime_text timestamp)
    ++ Str.nl
    ++ (" Fuel Remaining: " ++ show_double currentFuel
        ++ " | Current Consumption: " ++ show_double rate ++ " fuel/sec")
    ++ Str.nl
  /\ (2 <= Str.count Str.NL
             (render (Consumption uniqueID timestamp currentFuel rate)))%nat.
Proof.
  assert (E : render (Consumption uniqueID timestamp currentFuel rate)
    = ("Airplane " ++ uniqueID ++ " | " ++ asctime_text timestamp)
      ++ Str.nl
      ++ (" Fuel Remaining: " ++ show_double currentFuel
          ++ " | Current Consumption: " ++ show_double rate ++ " fuel/sec")
      ++ Str.nl).
  { unfold render, asctime. now rewrite !Str.app_assoc. }
  split; [exact E|]. rewrite E, !Str.count_app. cbn [Str.count Str.nl].
  rewrite Ascii.eqb_refl. lia.
Qed.

(** C10 (amended).  When no block received holds a NUL byte, the identifier
    is the bytes of the stream before its first newline, as they are; and
    every line that names the airplane (the connection line, the line of a
    reading, the summary) prints exactly this identifier.  The lines that
    report a malformed record print the record alone. *)
Theorem identifier_is_verbatim
    (sock : socket) (uniqueID : string) (s : Session) :
  no_nul sock ->
  run sock = Completed uniqueID s ->
  (exists rest : string,
     Str.concat (received sock) = uniqueID ++ Str.nl ++ rest)
  /\ Str.find Str.NL uniqueID = None
  /\ forall o : Output,
       In o (handleClient sock) ->
       if is_failure o then names o = None
       else names o = Some uniqueID
            /\ exists before after : string,
                 render o = before ++ uniqueID ++ after.
Proof.
  intros N Hrun. split; [|split].
  - pose proof (run_framing sock) as E.
    rewrite (stream_no_nul sock N), Hrun in E.
    cbn [reassemble map Str.concat] in E. unfold with_newline in E.
    rewrite !Str.app_assoc in E. eexists. symmetry. exact E.
  - pose proof (run_records sock uniqueID s Hrun) as F. now inversion F.
  - destruct (reachable_consistent _ _ (run_reachable _ _ _ Hrun)) as [_ Hout].
    rewrite (handleClient_completed _ _ _ Hrun), Hout. intros o H.
    assert (K : if is_failure o then names o = None
                else names o = Some uniqueID).
    { cbn [app] in H. destruct H as [<-|H]; [reflexivity|].
      apply in_app_or in H. destruct H as [H|[<-|[]]]; [|reflexivity].
      now apply names_log_from in H. }
    destruct (is_failure o); [exact K|]. split; [exact K|].
    destruct o as [id|line|id stamp fuel rate|id avg]; cbn [names] in K;
      try discriminate; injection K as ->; unfold render;
      eexists; eexists; reflexivity.
Qed.

(** ** More on the loops of [handleClient] *)

(** *** The inner loop, block after block *)

(** The bytes [x] appended to the buffer. *)
Definition push (x : string) (s : Session) : Session :=
  {| flight := flight s;
     recvBuffer := recvBuffer s ++ x;
     cout := cout s;
     framed := framed s |}.

Lemma find_app_some (c : ascii) (b x : string) (n : nat) :
  Str.find c b = Some n -> Str.find c (b ++ x) = Some n.
Proof.
  revert n; induction b as [|a b IH]; cbn [Str.find append]; intros n H;
    [discriminate|].
  destruct (Ascii.eqb a c); [exact H|].
  destruct (Str.find c b) as [k|]; [|discriminate].
  now rewrite (IH k eq_refl).
Qed.

Lemma find_app_none (c : ascii) (b x : string) :
  Str.find c b = None -> Str.find c x = None -> Str.find c (b ++ x) = None.
Proof.
  intros Hb Hx. apply Str.find_none_count. rewrite Str.count_app.
  apply Str.find_none_count in Hb. apply Str.find_none_count in Hx. lia.
Qed.

Lemma substr0_app_le (b x : string) : forall n : nat,
  (n <= String.length b)%nat -> Str.substr0 (b ++ x) n = Str.substr0 b n.
Proof.
  induction b as [|a b IH]; intros [|n] H; cbn in *; try reflexivity; [lia|].
  rewrite IH by lia. reflexivity.
Qed.

Lemma erase0_app_le (b x : string) : forall n : nat,
  (n <= String.length b)%nat -> Str.erase0 (b ++ x) n = Str.erase0 b n ++ x.
Proof.
  induction b as [|a b IH]; intros [|n] H; cbn in *; try reflexivity; [lia|].
  apply IH. lia.
Qed.

Lemma turn_push (uniqueID x : string) (lineEnd : nat) (s : Session) :
  Str.find Str.NL (recvBuffer s) = Some lineEnd ->
  turn uniqueID lineEnd (push x s) = push x (turn uniqueID lineEnd s).
Proof.
  intros F. pose proof (Str.find_lt _ _ _ F) as L.
  unfold turn, push. cbn [recvBuffer flight cout framed].
  rewrite substr0_app_le, erase0_app_le by lia.
  now destruct (process_line uniqueID _ _).
Qed.

Lemma drain_none (uniqueID : string) (turns : nat) (s : Session) :
  Str.find Str.NL (recvBuffer s) = None -> drain turns uniqueID s = s.
Proof. intros F. destruct turns; cbn [drain]; [reflexivity|now rewrite F]. Qed.

(** Any bound that is at least the length of the buffer gives the same
    result. *)
Lemma drain_enough (uniqueID : string) (k : nat) :
  forall (m : nat) (s : Session),
  (String.length (recvBuffer s) <= k)%nat ->
  (String.length (recvBuffer s) <= m)%nat ->
  drain k uniqueID s = drain m uniqueID s.
Proof.
  induction k as [|k IH]; intros m s Hk Hm.
  - rewrite (drain_none uniqueID m); [reflexivity|].
    destruct (recvBuffer s); [reflexivity|cbn in Hk; lia].
  - destruct (Str.find Str.NL (recvBuffer s)) as [pos|] eqn:F.
    + pose proof (Str.find_lt _ _ _ F) as L.
      pose proof (turn_shorter uniqueID pos s F) as T.
      destruct m as [|m]; [lia|]. cbn [drain]. rewrite F.
      apply IH; lia.
    + now rewrite !drain_none.
Qed.

Lemma drain_push (uniqueID x : string) (n : nat) :
  forall (s : Session) (k m : nat),
  (String.length (recvBuffer s) <= n)%nat ->
  (String.length (recvBuffer (push x s)) <= k)%nat ->
  (String.length (recvBuffer (push x (drain n uniqueID s))) <= m)%nat ->
  drain k uniqueID (push x s) = drain m uniqueID (push x (drain n uniqueID s)).
Proof.
  induction n as [|n IH]; intros s k m Hn Hk Hm.
  - cbn [drain] in *. now apply drain_enough.
  - destruct (Str.find Str.NL (recvBuffer s)) as [pos|] eqn:F.
    + pose proof (turn_shorter uniqueID pos s F) as T.
      cbn [drain] in Hm |- *. rewrite F in Hm |- *.
      destruct k as [|k];
        [cbn [push recvBuffer] in Hk; rewrite Str.length_app in Hk; lia|].
      cbn [drain]. cbn [push recvBuffer].
      rewrite (find_app_some _ _ x _ F).
      change (turn uniqueID pos
                {| flight := flight s; recvBuffer := recvBuffer s ++ x;
                   cout := cout s; framed := framed s |})
        with (turn uniqueID pos (push x s)).
      rewrite turn_push by exact F.
      apply IH; [lia| |exact Hm].
      cbn [push recvBuffer] in Hk |- *. rewrite Str.length_app in Hk |- *. lia.
    + rewrite (drain_none uniqueID (S n) s F) in Hm |- *.
      now apply drain_enough.
Qed.

Lemma process_buffer_push (uniqueID x : string) (s : Session) :
  process_buffer uniqueID (push x s)
  = process_buffer uniqueID (push x (process_buffer uniqueID s)).
Proof. unfold process_buffer. apply drain_push; lia. Qed.

Lemma push_push (x y : string) (s : Session) :
  push y (push x s) = push (x ++ y) s.
Proof. unfold push. cbn. now rewrite Str.app_assoc. Qed.

Lemma telemetry_loop_ended (uniqueID : string) (sock : socket) (s : Session) :
  received sock = [] -> telemetry_loop uniqueID sock s = s.
Proof.
  destruct sock as [|b sock]; [reflexivity|]. cbn [received telemetry_loop].
  now destruct (Str.empty b).
Qed.

(** With at least one block, the outer loop does what the inner loop does
    on the whole stream at once. *)
Lemma telemetry_loop_stream (uniqueID : string) (sock : socket) :
  forall s : Session,
  received sock <> [] ->
  telemetry_loop uniqueID sock s
  = process_buffer uniqueID (push (stream sock) s).
Proof.
  induction sock as [|b sock IH]; intros s N; [now elim N|].
  unfold stream in *. cbn [telemetry_loop received] in *.
  destruct (Str.empty b); [now elim N|]. cbn [map Str.concat].
  change (deliver b s) with (push (Str.c_str b) s).
  destruct (received sock) as [|b' bs] eqn:R.
  - rewrite telemetry_loop_ended by exact R.
    cbn [map Str.concat]. now rewrite Str.app_nil_r.
  - rewrite IH by discriminate.
    now rewrite <- process_buffer_push, push_push.
Qed.

Lemma connect_push (buf x : string) :
  Str.find Str.NL buf <> None ->
  connect (buf ++ x) = (fst (connect buf), push x (snd (connect buf))).
Proof.
  intros N. unfold connect.
  destruct (Str.find Str.NL buf) as [pos|] eqn:F; [|now elim N].
  pose proof (Str.find_lt _ _ _ F) as L.
  rewrite (find_app_some _ _ x _ F).
  rewrite substr0_app_le, erase0_app_le by lia. reflexivity.
Qed.

(** X1.  The stream of a socket is its blocks, each up to its first NUL
    byte, one after the other.  Once a block has arrived after the one that
    completed the identifier line, how the stream was cut into blocks no
    longer matters: the session is the one the inner loop makes of the
    whole stream, and two sockets with the same stream end in the same
    state and write the same lines. *)
Theorem blocks_do_not_matter
    (sock1 sock2 : socket) (buf1 buf2 : string) (rest1 rest2 : socket) :
  read_id sock1 EmptyString = (buf1, Some rest1) -> received rest1 <> [] ->
  read_id sock2 EmptyString = (buf2, Some rest2) -> received rest2 <> [] ->
  stream sock1 = stream sock2 ->
  run sock1
  = Completed (fst (connect (stream sock1)))
      (process_buffer (fst (connect (stream sock1)))
         (snd (connect (stream sock1))))
  /\ run sock2 = run sock1
  /\ handleClient sock2 = handleClient sock1.
Proof.
  assert (K : forall sock buf rest,
             read_id sock EmptyString = (buf, Some rest) ->
             received rest <> [] ->
             run sock
             = Completed (fst (connect (stream sock)))
                 (process_buffer (fst (connect (stream sock)))
                    (snd (connect (stream sock))))).
  { intros sock buf rest Hid Hr. unfold run. rewrite Hid.
    pose proof (read_id_spec sock EmptyString) as S. rewrite Hid in S.
    cbn [append] in S. destruct S as [E N].
    rewrite <- E, connect_push by exact N.
    destruct (connect buf) as [id s0]. cbn [fst snd].
    now rewrite telemetry_loop_stream. }
  intros H1 R1 H2 R2 E.
  pose proof (K _ _ _ H1 R1) as K1. pose proof (K _ _ _ H2 R2) as K2.
  rewrite <- E in K2. split; [exact K1|].
  assert (Q : run sock2 = run sock1) by now rewrite K1, K2.
  split; [exact Q|]. unfold handleClient. now rewrite Q.
Qed.

(** X2.  The inner loop splits off as many records as the buffer holds
    newlines; it leaves the bytes after the last one, which hold none. *)
Theorem process_buffer_takes_every_record (uniqueID : string) (s : Session) :
  length (framed (process_buffer uniqueID s))
  = (length (framed s) + Str.count Str.NL (recvBuffer s))%nat
  /\ Str.find Str.NL (recvBuffer (process_buffer uniqueID s)) = None
  /\ framing (process_buffer uniqueID s) = framing s.
Proof.
  split; [|split; [apply process_buffer_complete|apply drain_framing]].
  unfold process_buffer.
  assert (G : forall n t, (String.length (recvBuffer t) <= n)%nat ->
              length (framed (drain n uniqueID t))
              = (length (framed t) + Str.count Str.NL (recvBuffer t))%nat).
  { induction n as [|n IH]; intros t L.
    - cbn [drain]. destruct (recvBuffer t); [cbn; lia|cbn in L; lia].
    - cbn [drain].
      destruct (Str.find Str.NL (recvBuffer t)) as [pos|] eqn:F.
      + pose proof (turn_shorter uniqueID pos t F) as T.
        rewrite IH by lia. unfold turn.
        destruct (process_line uniqueID _ _) as [f out].
        cbn [framed recvBuffer]. rewrite length_app. cbn [length].
        destruct (Str.find_split _ _ _ F) as [E Hn].
        rewrite E at 2. rewrite Str.count_app. cbn [Str.count].
        rewrite Ascii.eqb_refl. apply Str.find_none_count in Hn. lia.
      + apply Str.find_none_count in F. lia. }
  now apply G.
Qed.

(** *** The end of the stream *)

Lemma read_id_more (sock more : socket) : forall (buf0 buf : string) (rest : socket),
  read_id sock buf0 = (buf, Some rest) ->
  read_id (sock ++ more)%list buf0 = (buf, Some (rest ++ more)%list).
Proof.
  induction sock as [|b sock IH]; intros buf0 buf rest.
  - cbn [read_id app]. destruct (Str.find Str.NL buf0) eqn:F; [|discriminate].
    intros H. injection H as <- <-. cbn [app].
    destruct more as [|m more]; cbn [read_id]; now rewrite F.
  - cbn [read_id app]. destruct (Str.find Str.NL buf0) eqn:F.
    + intros H. now injection H as <- <-.
    + destruct (Str.empty b); [discriminate|]. apply IH.
Qed.

Lemma telemetry_loop_tail (uniqueID tail : string) (sock : socket) :
  Str.find Str.NL (Str.c_str tail) = None ->
  forall s : Session,
  received sock <> [] \/ Str.find Str.NL (recvBuffer s) = None ->
  flight (telemetry_loop uniqueID (sock ++ [tail])%list s)
  = flight (telemetry_loop uniqueID sock s)
  /\ cout (telemetry_loop uniqueID (sock ++ [tail])%list s)
     = cout (telemetry_loop uniqueID sock s)
  /\ framed (telemetry_loop uniqueID (sock ++ [tail])%list s)
     = framed (telemetry_loop uniqueID sock s).
Proof.
  intros T. induction sock as [|b sock IH]; intros s H.
  - destruct H as [H|H]; [now elim H|].
    cbn [app telemetry_loop]. destruct (Str.empty tail); [now repeat split|].
    unfold process_buffer. rewrite drain_none; [now repeat split|].
    cbn [deliver recvBuffer]. now apply find_app_none.
  - cbn [app telemetry_loop]. destruct (Str.empty b); [now repeat split|].
    apply IH. right. apply process_buffer_complete.
Qed.

(** X3.  Bytes that arrive without a newline before the stream ends reach
    neither the parser nor [cout]: a last block that holds no newline
    changes nothing of what a session, already streaming, writes. *)
Theorem unterminated_tail_is_dropped
    (sock : socket) (buf : string) (rest : socket) (tail : string) :
  read_id sock EmptyString = (buf, Some rest) ->
  received rest <> [] ->
  Str.find Str.NL (Str.c_str tail) = None ->
  handleClient (sock ++ [tail])%list = handleClient sock.
Proof.
  intros Hid Hr T. unfold handleClient, run.
  rewrite (read_id_more _ [tail] _ _ _ Hid), Hid.
  destruct (connect buf) as [id s0].
  destruct (telemetry_loop_tail id tail rest T s0 (or_introl Hr))
    as (Hf & Hc & _).
  now rewrite Hf, Hc.
Qed.

(** *** What a session writes, as a whole *)

(** A record that reaches the parser and is refused. *)
Definition malformed (line : string) : bool :=
  negb (Str.empty (trim line))
  && match parseTelemetryData line with
     | None => true
     | Some _ => false
     end.

Lemma log_from_length (uniqueID : string) (lines : list string) :
  forall prev : option Reading,
  length (log_from uniqueID prev lines)
  = (length (filter malformed lines)
     + match prev with
       | None => length (accepted lines) - 1
       | Some _ => length (accepted lines)
       end)%nat.
Proof.
  induction lines as [|l lines IH]; intros prev;
    cbn [log_from filter accepted]; [now destruct prev|].
  unfold accept, malformed.
  destruct (Str.empty (trim l)); cbn [negb andb];
    [fold malformed; apply IH|].
  destruct (parseTelemetryData l) as [d|]; cbn beta iota.
  - fold malformed. rewrite length_app, IH. destruct prev; cbn [length]; lia.
  - fold malformed. cbn [length]. now rewrite IH.
Qed.

Lemma log_from_kinds (uniqueID : string) (lines : list string) :
  forall prev : option Reading,
  Forall (fun o => is_consumption o || is_failure o = true)
         (log_from uniqueID prev lines).
Proof.
  induction lines as [|l lines IH]; intros prev; cbn [log_from];
    [constructor|].
  destruct (Str.empty (trim l)); [apply IH|].
  destruct (parseTelemetryData l) as [d|].
  - apply Forall_app. split; [|apply IH].
    destruct prev; repeat constructor.
  - constructor; [reflexivity|apply IH].
Qed.

Lemma log_from_failures (uniqueID : string) (lines : list string) :
  forall (prev : option Reading) (line : string),
  In (ParseFailed line) (log_from uniqueID prev lines) -> In line lines.
Proof.
  induction lines as [|l lines IH]; intros prev line; cbn [log_from];
    [intros []|].
  destruct (Str.empty (trim l)); [intros H; right; now apply IH in H|].
  destruct (parseTelemetryData l) as [d|].
  - intros H. apply in_app_or in H. destruct H as [H|H].
    + destruct prev; [|now elim H]. destruct H as [H|[]]. discriminate.
    + right. now apply IH in H.
  - intros [H|H]; [left; congruence|right; now apply IH in H].
Qed.

Lemma log_from_malformed (uniqueID : string) (lines : list string) :
  forall prev : option Reading,
  filter is_failure (log_from uniqueID prev lines)
  = map ParseFailed (filter malformed lines).
Proof.
  induction lines as [|l lines IH]; intros prev; cbn [log_from filter];
    [reflexivity|].
  unfold malformed.
  destruct (Str.empty (trim l)); cbn [negb andb];
    [fold malformed; apply IH|].
  destruct (parseTelemetryData l) as [d|]; cbn beta iota; fold malformed.
  - rewrite filter_app, IH. now destruct prev.
  - cbn [filter is_failure map]. now rewrite IH.
Qed.

(** X4.  The stream of a socket is its blocks, each up to its first NUL
    byte, one after the other.  A stream with no newline gives a session
    that writes nothing.  Any other gives the connection line first, with
    the bytes before the first newline as identifier, and the summary last.
    The lines between them are parse failures and consumptions only: the
    parse failures are the malformed records, one line each with the text
    of the record, in the order of the records; the consumptions are the
    events of the accepted readings, one for each reading but the first, in
    the order of the readings. *)
Theorem what_a_session_writes (sock : socket) :
  match Str.find Str.NL (stream sock) with
  | None => handleClient sock = []
  | Some pos =>
      exists (s : Session) (middle : list Output),
        run sock = Completed (Str.substr0 (stream sock) pos) s
        /\ handleClient sock
           = (Connected (Str.substr0 (stream sock) pos) :: middle
              ++ [FlightEnded (Str.substr0 (stream sock) pos)
                    (averageConsumption (flight s))])%list
        /\ Forall (fun o => is_consumption o || is_failure o = true) middle
        /\ filter is_failure middle
           = map ParseFailed (filter malformed (framed s))
        /\ filter is_consumption middle
           = session_events (Str.substr0 (stream sock) pos)
               (accepted (framed s))
        /\ length (filter is_consumption middle)
           = (length (accepted (framed s)) - 1)%nat
        /\ length middle
           = (length (filter malformed (framed s))
              + (length (accepted (framed s)) - 1))%nat
  end.
Proof.
  pose proof (read_id_spec sock EmptyString) as S.
  destruct (read_id sock EmptyString) as [buf [rest|]] eqn:Hid;
    cbn [append] in S.
  - destruct S as [E N]. rewrite <- E.
    destruct (Str.find Str.NL buf) as [pos|] eqn:F; [|now elim N].
    rewrite (find_app_some _ _ _ _ F).
    pose proof (Str.find_lt _ _ _ F) as L.
    rewrite substr0_app_le by lia.
    assert (Hrun : exists s, run sock = Completed (Str.substr0 buf pos) s).
    { unfold run. rewrite Hid. unfold connect. rewrite F. eexists. reflexivity. }
    destruct Hrun as [s Hrun]. exists s.
    exists (log_from (Str.substr0 buf pos) None (framed s)).
    destruct (reachable_consistent _ _ (run_reachable _ _ _ Hrun)) as [_ Hout].
    split; [exact Hrun|]. split; [|split; [|split; [|split; [|split]]]].
    + now rewrite (handleClient_completed _ _ _ Hrun), Hout.
    + apply log_from_kinds.
    + apply log_from_malformed.
    + apply consumptions_log_from.
    + rewrite consumptions_log_from.
      destruct (accepted (framed s)) as [|r0 rs]; [reflexivity|].
      cbn [session_events length]. rewrite events_from_length. lia.
    + apply log_from_length.
  - destruct S as [E N]. rewrite <- E, N.
    unfold handleClient, run. now rewrite Hid.
Qed.

(** X5.  A record that is blank once trimmed is skipped in silence: two
    sessions whose records differ by one such record end in the same state
    and write the same lines. *)
Theorem blank_record_is_silent
    (sock1 sock2 : socket) (uniqueID : string) (s1 s2 : Session)
    (pre post : list string) (blank : string) :
  Str.empty (trim blank) = true ->
  run sock1 = Completed uniqueID s1 ->
  run sock2 = Completed uniqueID s2 ->
  framed s1 = (pre ++ blank :: post)%list ->
  framed s2 = (pre ++ post)%list ->
  flight s1 = flight s2
  /\ cout s1 = cout s2
  /\ handleClient sock1 = handleClient sock2.
Proof.
  intros Hb R1 R2 F1 F2.
  destruct (reachable_consistent _ _ (run_reachable _ _ _ R1)) as [Hf1 Hc1].
  destruct (reachable_consistent _ _ (run_reachable _ _ _ R2)) as [Hf2 Hc2].
  assert (A : accepted (framed s1) = accepted (framed s2)).
  { rewrite F1, F2, !accepted_app. cbn [accepted]. unfold accept.
    now rewrite Hb. }
  assert (Hf : flight s1 = flight s2) by now rewrite Hf1, Hf2, A.
  assert (Hc : cout s1 = cout s2).
  { rewrite Hc1, Hc2, F1, F2, !log_from_app. cbn [log_from]. now rewrite Hb. }
  split; [exact Hf|]. split; [exact Hc|].
  rewrite (handleClient_completed _ _ _ R1), (handleClient_completed _ _ _ R2).
  now rewrite Hf, Hc.
Qed.

Lemma last_in (rest : list Reading) : forall r0 : Reading,
  In (last rest r0) (r0 :: rest).
Proof.
  induction rest as [|r1 rest IH]; intros r0; [now left|].
  rewrite last_cons_any. right. apply IH.
Qed.

(** X6.  The average of the summary is a number, neither an infinity nor
    a NaN, when the fuel levels of the accepted readings are finite and not
    negative. *)
Theorem average_is_a_number
    (sock : socket) (uniqueID : string) (s : Session) :
  run sock = Completed uniqueID s ->
  Forall (fun r => DoubleFacts.fuel_ok (r_fuel r) = true)
         (accepted (framed s)) ->
  is_finite (averageConsumption (flight s)) = true
  /\ is_infinite (averageConsumption (flight s)) = false.
Proof.
  intros Hrun F.
  destruct (reachable_consistent _ _ (run_reachable _ _ _ Hrun)) as [Hf _].
  assert (G : is_finite (averageConsumption (flight s)) = true).
  { rewrite Hf. apply DoubleFacts.fits_finite.
    unfold averageConsumption, difftime.
    destruct (accepted (framed s)) as [|r0 rest]; [exact I|].
    cbn [flight_of startFuel lastFuel startTime lastTime].
    rewrite Forall_forall in F.
    apply DoubleFacts.rate_fits; apply F; [now left|apply last_in]. }
  split; [exact G|]. now destruct (averageConsumption (flight s)).
Qed.

(** X7.  When a [double] is printed without a newline, the connection
    line, the lines that report a malformed record and the summary are one
    line each: the only newline of each is the one [endl] writes. *)
Theorem other_lines_are_single
    (sock : socket) (uniqueID : string) (s : Session) (o : Output) :
  (forall x : double, Str.count Str.NL (show_double x) = 0%nat) ->
  run sock = Completed uniqueID s ->
  In o (handleClient sock) ->
  is_consumption o = false ->
  Str.count Str.NL (render o) = 1%nat.
Proof.
  intros Hd Hrun Hin Hk.
  pose proof (run_records _ _ _ Hrun) as R. rewrite Forall_forall in R.
  assert (Hid : Str.count Str.NL uniqueID = 0%nat)
    by (apply Str.find_none_count, R; now left).
  destruct (reachable_consistent _ _ (run_reachable _ _ _ Hrun)) as [_ Hout].
  rewrite (handleClient_completed _ _ _ Hrun), Hout in Hin.
  cbn [app] in Hin. destruct Hin as [<-|Hin].
  - unfold render. rewrite !Str.count_app, Hid. reflexivity.
  - apply in_app_or in Hin. destruct Hin as [Hin|[<-|[]]].
    + pose proof (log_from_kinds uniqueID (framed s) None) as K.
      rewrite Forall_forall in K. specialize (K o Hin).
      destruct o as [id|line|id stamp fuel rate|id avg]; try discriminate.
      apply log_from_failures in Hin.
      assert (Hl : Str.count Str.NL line = 0%nat)
        by (apply Str.find_none_count, R; now right).
      unfold render. rewrite !Str.count_app, Hl. reflexivity.
    + unfold render. rewrite !Str.count_app, Hid, Hd. reflexivity.
Qed.

(** X8.  Whatever bytes arrive, the records and the buffer put together
    are the blocks received, each up to its first NUL byte; the buffer and
    the records never hold a NUL. *)
Theorem framing_keeps_the_c_strings (sock : socket) :
  reassemble (run sock) = Str.concat (map Str.c_str (received sock))
  /\ Str.find Str.NUL (reassemble (run sock)) = None.
Proof.
  split; [apply run_framing|]. rewrite run_framing. unfold stream.
  apply Str.find_none_count.
  induction (received sock) as [|b bs IH]; [reflexivity|].
  cbn [map Str.concat]. rewrite Str.count_app, IH.
  assert (C : Str.count Str.NUL (Str.c_str b) = 0%nat).
  { clear. induction b as [|a b IH]; [reflexivity|]. cbn [Str.c_str].
    destruct (Ascii.eqb a Str.NUL) eqn:E; [reflexivity|].
    cbn [Str.count]. now rewrite E, IH. }
  now rewrite C.
Qed.
End Server.

(** ** Concurrent sessions and the console

    Each session runs in a thread of its own; [cout] and [coutMutex] are
    all they share.  A session is the sequence of its [cout] statements,
    each inside the scope of a [lock_guard]: the thread takes the mutex,
    writes the characters of the statement one after the other, and gives
    the mutex back.  The threads are interleaved in any way that respects
    the mutex. *)

Module Console.

Inductive action : Type :=
| Lock
| Put (c : ascii)
| Unlock.

Fixpoint puts (text : string) : list action :=
  match text with
  | EmptyString => []
  | String c text' => Put c :: puts text'
  end.

(** [{ lock_guard<mutex> lock(coutMutex); cout << ... << endl; }] *)
Definition statement (text : string) (rest : list action) : list action :=
  Lock :: (puts text ++ Unlock :: rest)%list.

Fixpoint program (texts : list string) : list action :=
  match texts with
  | [] => []
  | text :: texts' => statement text (program texts')
  end.

Fixpoint update {A : Type} (i : nat) (x : A) (l : list A) : list A :=
  match l, i with
  | [], _ => []
  | _ :: l', O => x :: l'
  | y :: l', S i' => y :: update i' x l'
  end.

(** The console, the thread that holds the mutex, and what each thread has
    still to do. *)
Record world : Type := {
  console : string;
  holder : option nat;
  threads : list (list action)
}.

Definition start (texts : list (list string)) : world :=
  {| console := EmptyString; holder := None; threads := map program texts |}.

(** One action of thread [i].  [Lock] waits for the mutex to be free. *)
Inductive step : world -> world -> Prop :=
| step_lock (w : world) (i : nat) (k : list action) :
    nth_error (threads w) i = Some (Lock :: k) ->
    holder w = None ->
    step w {| console := console w; holder := Some i;
              threads := update i k (threads w) |}
| step_put (w : world) (i : nat) (c : ascii) (k : list action) :
    nth_error (threads w) i = Some (Put c :: k) ->
    step w {| console := console w ++ String c EmptyString;
              holder := holder w;
              threads := update i k (threads w) |}
| step_unlock (w : world) (i : nat) (k : list action) :
    nth_error (threads w) i = Some (Unlock :: k) ->
    step w {| console := console w; holder := None;
              threads := update i k (threads w) |}.

Inductive runs (w0 : world) : world -> Prop :=
| runs_refl : runs w0 w0
| runs_step (w w' : world) : runs w0 w -> step w w' -> runs w0 w'.

(** [taken texts done rest]: the statements [done], in this order, are
    taken from the fronts of the threads' lists [texts], one thread at a
    time, and [rest] is what the threads are left with. *)
Inductive taken (texts : list (list string))
    : list string -> list (list string) -> Prop :=
| taken_none : taken texts [] texts
| taken_next (done : list string) (rest : list (list string))
    (i : nat) (text : string) (after : list string) :
    taken texts done rest ->
    nth_error rest i = Some (text :: after) ->
    taken texts (done ++ [text])%list (update i after rest).

(** What holds of every world: the console is the statements done, whole
    and in the order they were taken, then the part already written of the
    statement of the thread that holds the mutex. *)
Definition whole_lines (texts : list (list string)) (w : world) : Prop :=
  exists (done : list string) (rest : list (list string)),
    taken texts done rest
    /\ length (threads w) = length rest
    /\ match holder w with
       | None =>
           console w = Str.concat done
           /\ forall i, nth_error (threads w) i
                        = option_map program (nth_error rest i)
       | Some h =>
           exists (written towrite : string) (after : list string),
             nth_error rest h = Some ((written ++ towrite) :: after)
             /\ console w = Str.concat done ++ written
             /\ nth_error (threads w) h
                = Some (puts towrite ++ Unlock :: program after)%list
             /\ forall i, i <> h ->
                          nth_error (threads w) i
                          = option_map program (nth_error rest i)
       end.

Lemma nth_error_update_eq {A : Type} (l : list A) : forall (i : nat) (x y : A),
  nth_error l i = Some y -> nth_error (update i x l) i = Some x.
Proof.
  induction l as [|z l IH]; intros [|i] x y H; try discriminate;
    cbn in *; [reflexivity|now apply (IH i x y)].
Qed.

Lemma nth_error_update_neq {A : Type} (l : list A) : forall (i j : nat) (x : A),
  i <> j -> nth_error (update i x l) j = nth_error l j.
Proof.
  induction l as [|z l IH]; intros [|i] [|j] x N; cbn; try reflexivity;
    [now elim N|apply IH; congruence].
Qed.

Lemma length_update {A : Type} (l : list A) : forall (i : nat) (x : A),
  length (update i x l) = length l.
Proof.
  induction l as [|z l IH]; intros [|i] x; cbn; try reflexivity.
  now rewrite IH.
Qed.

Lemma program_head (texts : list string) (a : action) (k : list action) :
  program texts = a :: k ->
  exists text after,
    texts = text :: after /\ a = Lock
    /\ k = (puts text ++ Unlock :: program after)%list.
Proof.
  destruct texts as [|text after]; cbn; [discriminate|].
  intros H. injection H as <- <-. now exists text, after.
Qed.

Lemma start_whole_lines (texts : list (list string)) :
  whole_lines texts (start texts).
Proof.
  exists [], texts. split; [constructor|]. split; [apply length_map|].
  cbn. split; [reflexivity|]. intros i. apply nth_error_map.
Qed.

Lemma step_whole_lines (texts : list (list string)) (w w' : world) :
  whole_lines texts w -> step w w' -> whole_lines texts w'.
Proof.
  intros (done & rest & T & L & H) St.
  destruct St as [w i k Hi Hh|w i c k Hi|w i k Hi].
  - (* Lock: the mutex is free, thread [i] is between two statements *)
    rewrite Hh in H. destruct H as [C P].
    rewrite P in Hi.
    destruct (nth_error rest i) as [ri|] eqn:R; [|discriminate].
    cbn in Hi. injection Hi as Hi.
    destruct (program_head _ _ _ Hi) as (text & after & -> & _ & ->).
    exists done, rest. split; [exact T|]. cbn [threads holder console].
    split; [rewrite length_update; exact L|].
    exists EmptyString, text, after. cbn [append].
    split; [exact R|]. split; [now rewrite Str.app_nil_r|]. split.
    + apply nth_error_update_eq with (y := program (text :: after)).
      now rewrite P, R.
    + intros j N. now rewrite nth_error_update_neq, P by congruence.
  - (* Put: only the holder has characters to write *)
    unfold whole_lines. cbn [threads holder console].
    destruct (holder w) as [h|] eqn:Hh.
    + destruct H as (written & towrite & after & R & C & Th & P).
      destruct (Nat.eq_dec i h) as [->|N].
      * rewrite Th in Hi. injection Hi as Hi.
        destruct towrite as [|c' towrite]; cbn in Hi; [discriminate|].
        injection Hi as <- <-.
        exists done, rest. split; [exact T|].
        split; [rewrite length_update; exact L|].
        exists (written ++ String c' EmptyString), towrite, after.
        split; [now rewrite R, Str.app_assoc|].
        split; [now rewrite C, Str.app_assoc|]. split.
        -- eapply nth_error_update_eq. exact Th.
        -- intros j N. now rewrite nth_error_update_neq, P by congruence.
      * rewrite (P i N) in Hi.
        destruct (nth_error rest i) as [ri|]; [|discriminate].
        cbn in Hi. injection Hi as Hi.
        destruct (program_head _ _ _ Hi) as (? & ? & _ & E & _). discriminate.
    + destruct H as [C P]. rewrite P in Hi.
      destruct (nth_error rest i) as [ri|]; [|discriminate].
      cbn in Hi. injection Hi as Hi.
      destruct (program_head _ _ _ Hi) as (? & ? & _ & E & _). discriminate.
  - (* Unlock: the holder has written its statement to the end *)
    unfold whole_lines. cbn [threads holder console].
    destruct (holder w) as [h|] eqn:Hh.
    + destruct H as (written & towrite & after & R & C & Th & P).
      destruct (Nat.eq_dec i h) as [->|N].
      * rewrite Th in Hi. injection Hi as Hi.
        destruct towrite as [|c' towrite]; cbn in Hi; [|discriminate].
        injection Hi as <-. rewrite Str.app_nil_r in R.
        exists (done ++ [written])%list, (update h after rest).
        split; [now apply taken_next|].
        split; [rewrite !length_update; exact L|]. split.
        -- rewrite C, Str.concat_app. cbn [Str.concat].
           now rewrite Str.app_nil_r.
        -- intros j. destruct (Nat.eq_dec h j) as [<-|N].
           ++ rewrite (nth_error_update_eq _ _ _ _ Th).
              now rewrite (nth_error_update_eq _ _ _ _ R).
           ++ rewrite !nth_error_update_neq by assumption.
              apply P. congruence.
      * rewrite (P i N) in Hi.
        destruct (nth_error rest i) as [ri|]; [|discriminate].
        cbn in Hi. injection Hi as Hi.
        destruct (program_head _ _ _ Hi) as (? & ? & _ & E & _). discriminate.
    + destruct H as [C P]. rewrite P in Hi.
      destruct (nth_error rest i) as [ri|]; [|discriminate].
      cbn in Hi. injection Hi as Hi.
      destruct (program_head _ _ _ Hi) as (? & ? & _ & E & _). discriminate.
Qed.

Lemma runs_whole_lines (texts : list (list string)) (w : world) :
  runs (start texts) w -> whole_lines texts w.
Proof.
  induction 1 as [|w w' _ IH St]; [apply start_whole_lines|].
  now apply step_whole_lines with (1 := IH).
Qed.

(** Thread [i] takes its next action, if it can. *)
Definition fire (i : nat) (w : world) : option world :=
  match nth_error (threads w) i with
  | Some (Lock :: k) =>
      match holder w with
      | None => Some {| console := console w; holder := Some i;
                        threads := update i k (threads w) |}
      | Some _ => None
      end
  | Some (Put c :: k) =>
      Some {| console := console w ++ String c EmptyString;
              holder := holder w;
              threads := update i k (threads w) |}
  | Some (Unlock :: k) =>
      Some {| console := console w; holder := None;
              threads := update i k (threads w) |}
  | _ => None
  end.

(** The threads take turns as [order] says. *)
Fixpoint schedule (order : list nat) (w : world) : option world :=
  match order with
  | [] => Some w
  | i :: order' =>
      match fire i w with
      | Some w' => schedule order' w'
      | None => None
      end
  end.

Lemma fire_step (i : nat) (w w' : world) : fire i w = Some w' -> step w w'.
Proof.
  unfold fire. destruct (nth_error (threads w) i) as [[|[|c|] k]|] eqn:E;
    try discriminate.
  - destruct (holder w) eqn:H; [discriminate|].
    intros X. injection X as <-. now apply step_lock.
  - intros X. injection X as <-. now apply step_put.
  - intros X. injection X as <-. now apply step_unlock.
Qed.

Lemma schedule_runs (w0 : world) (order : list nat) : forall w w' : world,
  runs w0 w -> schedule order w = Some w' -> runs w0 w'.
Proof.
  induction order as [|i order IH]; intros w w' R; cbn [schedule].
  - intros X. now injection X as <-.
  - destruct (fire i w) as [w1|] eqn:F; [|discriminate].
    apply IH. apply runs_step with (1 := R). now apply (fire_step i).
Qed.

(** When every thread is done nobody holds the mutex and no statement is
    left. *)
Lemma whole_lines_finished (texts : list (list string)) (w : world) :
  whole_lines texts w ->
  Forall (fun k => k = []) (threads w) ->
  exists done : list string,
    taken texts done (map (fun _ => []) texts)
    /\ console w = Str.concat done.
Proof.
  intros (done & rest & T & L & H) F. rewrite Forall_forall in F.
  destruct (holder w) as [h|].
  - destruct H as (written & towrite & after & _ & _ & Th & _).
    apply nth_error_In in Th. apply F in Th. now destruct (puts towrite).
  - destruct H as [C P]. exists done. split; [|exact C].
    assert (E : rest = map (fun _ => []) texts).
    { assert (Lt : length rest = length texts).
      { clear -T. induction T; [reflexivity|]. now rewrite length_update. }
      assert (N : forall i r, nth_error rest i = Some r -> r = []).
      { intros i r R. specialize (P i). rewrite R in P. cbn in P.
        apply nth_error_In in P. apply F in P. now destruct r. }
      clear -Lt N. revert texts Lt.
      induction rest as [|r rest IH]; intros [|t texts] Lt; try discriminate;
        [reflexivity|].
      cbn. rewrite (N 0%nat r eq_refl). f_equal.
      apply IH; [|now injection Lt]. intros i. apply (N (S i)). }
    now rewrite <- E.
Qed.

End Console.

(** What each of the sessions served at the same time writes, statement
    by statement. *)
Definition session_texts
    (trim : string -> string)
    (parseTelemetryData : string -> option TelemetryDataPoint)
    (mktime : tm -> time_t * tm) (show_double : double -> string)
    (socks : list socket) : list (list string) :=
  map (fun sock =>
         map (render show_double)
             (handleClient trim parseTelemetryData mktime sock))
      socks.

(** C9.  Sessions running at the same time, interleaved in any way the
    mutex allows: at every moment the console is a sequence of whole
    statements of the sessions, each session's in its own order, followed by
    the beginning of the statement of the thread that holds the mutex, if
    one does; when all the sessions are over, it is whole statements only. *)
Theorem console_lines_are_whole
    (trim : string -> string)
    (parseTelemetryData : string -> option TelemetryDataPoint)
    (mktime : tm -> time_t * tm) (show_double : double -> string)
    (socks : list socket) (w : Console.world) :
  Console.runs
    (Console.start
       (session_texts trim parseTelemetryData mktime show_double socks)) w ->
  (exists (done : list string) (rest : list (list string)),
     Console.taken
       (session_texts trim parseTelemetryData mktime show_double socks)
       done rest
     /\ match Console.holder w with
        | None => Console.console w = Str.concat done
        | Some h =>
            exists (written towrite : string) (after : list string),
              nth_error rest h = Some ((written ++ towrite) :: after)
              /\ Console.console w = Str.concat done ++ written
        end)
  /\ (Forall (fun k => k = []) (Console.threads w) ->
      exists done : list string,
        Console.taken
          (session_texts trim parseTelemetryData mktime show_double socks)
          done (map (fun _ => []) socks)
        /\ Console.console w = Str.concat done).
Proof.
  intros R. apply Console.runs_whole_lines in R. split.
  - destruct R as (done & rest & T & _ & H). exists done, rest.
    split; [exact T|]. destruct (Console.holder w) as [h|].
    + destruct H as (written & towrite & after & H1 & H2 & _).
      now exists written, towrite, after.
    + apply H.
  - intros F. destruct (Console.whole_lines_finished _ _ R F) as (done & T & C).
    exists done. split; [|exact C].
    unfold session_texts in T at 2. now rewrite map_map in T.
Qed.


(** ** The guard of the two divisions *)

(** X9.  [timeDiff > 0] holds exactly when [currentTime] is later than
    [lastTime], however far apart the two are; and then [timeDiff] is at
    least one (plus infinity, or a finite positive value of at least one
    binary digit before the point): the division of lines 111 and 129 is
    never by a zero, a negative value or a NaN. *)
Theorem elapsed_guard_is_exact (lastTime currentTime : time_t) :
  gt0 (difftime currentTime lastTime) = (lastTime <? currentTime)%Z
  /\ ((lastTime < currentTime)%Z ->
      difftime currentTime lastTime = S754_infinity false
      \/ exists (m : positive) (e : Z),
           difftime currentTime lastTime = S754_finite false m e
           /\ (1 <= Zdigits2 (Z.pos m) + e)%Z).
Proof.
  unfold difftime. split.
  - rewrite DoubleFacts.gt0_of_Z.
    destruct (Z.ltb_spec 0 (currentTime - lastTime));
      destruct (Z.ltb_spec lastTime currentTime); try lia; reflexivity.
  - intros H.
    pose proof (DoubleFacts.of_Z_pos (currentTime - lastTime) ltac:(lia)) as A.
    destruct (of_Z (currentTime - lastTime)) as [s|s| |s m e];
      cbn [DoubleFacts.at_least] in A; try contradiction.
    + left. now subst s.
    + right. destruct A as [-> A]. now exists m, e.
Qed.

(** ** [main]: start-up and the accept loop

    What the Winsock calls of one run return is given; [main] is the
    effects it has on them: what it writes to [cerr] and [cout], the
    sockets it closes, [WSACleanup], the threads it starts, and the value it
    returns, [None] while it is in [while (true)]. *)

Module Main.

Definition SOCKET : Type := Z.

Definition SERVER_PORT : Z := 27000%Z.

(** The results of the calls: [WSAStartup]'s value (0 on success); the
    socket created, or [WSAGetLastError] when [socket] gives
    [INVALID_SOCKET]; [WSAGetLastError] when [bind] or [listen] gives
    [SOCKET_ERROR]; the successive results of [accept]. *)
Record Winsock : Type := {
  WSAStartup : Z;
  socket : SOCKET + Z;
  bind : option Z;
  listen : option Z;
  accept : list (SOCKET + Z)
}.

Inductive effect : Type :=
| Cerr (text : string)
| Cout (text : string)
| Closesocket (s : SOCKET)
| WSACleanup
| Thread (clientSocket : SOCKET).

(** Lines 182-194, on the results of [accept] so far. *)
Fixpoint accept_loop (results : list (SOCKET + Z)) : list effect :=
  match results with
  | [] => []
  | inr error :: results' =>
      Cerr ("Accept failed with error: " ++ fmt_d error ++ Str.nl)
      :: accept_loop results'
  | inl clientSocket :: results' =>
      Thread clientSocket :: accept_loop results'
  end.

(** Lines 141-194. *)
Definition main (w : Winsock) : list effect * option Z :=
  if (WSAStartup w =? 0)%Z then
    match socket w with
    | inr error =>
        ([Cerr ("Failed to create socket. Error: " ++ fmt_d error ++ Str.nl);
          WSACleanup], Some 1%Z)
    | inl serverSocket =>
        match bind w with
        | Some error =>
            ([Cerr ("Bind failed with error: " ++ fmt_d error ++ Str.nl);
              Closesocket serverSocket; WSACleanup], Some 1%Z)
        | None =>
            match listen w with
            | Some error =>
                ([Cerr ("Listen failed with error: " ++ fmt_d error
                        ++ Str.nl);
                  Closesocket serverSocket; WSACleanup], Some 1%Z)
            | None =>
                (Cout ("Server listening on port " ++ fmt_d SERVER_PORT
                       ++ Str.nl)
                 :: accept_loop (accept w), None)
            end
        end
    end
  else
    ([Cerr ("WSAStartup failed: " ++ fmt_d (WSAStartup w) ++ Str.nl)],
     Some 1%Z).

Definition started (w : Winsock) : bool :=
  (WSAStartup w =? 0)%Z
  && match socket w, bind w, listen w with
     | inl _, None, None => true
     | _, _, _ => false
     end.

Definition threads (trace : list effect) : list SOCKET :=
  flat_map (fun e => match e with Thread c => [c] | _ => [] end) trace.

Definition accepted_sockets (results : list (SOCKET + Z)) : list SOCKET :=
  flat_map (fun r => match r with inl c => [c] | inr _ => [] end) results.

Definition is_cerr (e : effect) : bool :=
  match e with
  | Cerr _ => true
  | _ => false
  end.

Definition is_cleanup (e : effect) : bool :=
  match e with
  | Closesocket _ | WSACleanup => true
  | _ => false
  end.

(** X10.  [main] returns only when a start-up call fails, and then with
    1: it has written one line to [cerr] and nothing to [cout], closed the
    server socket if it had one, called [WSACleanup] last if [WSAStartup]
    had succeeded, and started no thread. *)
Theorem main_returns_on_startup_failure
    (w : Winsock) (trace : list effect) (code : Z) :
  main w = (trace, Some code) ->
  code = 1%Z
  /\ started w = false
  /\ threads trace = []
  /\ exists message : string,
       trace
       = (Cerr message
          :: if (WSAStartup w =? 0)%Z
             then match socket w with
                  | inl serverSocket => [Closesocket serverSocket]
                  | inr _ => []
                  end ++ [WSACleanup]
             else [])%list.
Proof.
  unfold main, started.
  destruct (WSAStartup w =? 0)%Z; cbn [andb].
  - destruct (socket w) as [s|e].
    + destruct (bind w) as [e|].
      * intros H. injection H as <- <-. repeat split. eexists. reflexivity.
      * destruct (listen w) as [e|]; [|discriminate].
        intros H. injection H as <- <-. repeat split. eexists. reflexivity.
    + intros H. injection H as <- <-. repeat split. eexists. reflexivity.
  - intros H. injection H as <- <-. repeat split. eexists. reflexivity.
Qed.

Lemma accept_loop_threads (results : list (SOCKET + Z)) :
  threads (accept_loop results) = accepted_sockets results.
Proof.
  induction results as [|[c|e] results IH]; cbn; [reflexivity| |exact IH].
  f_equal. exact IH.
Qed.

Lemma accept_loop_cerr (results : list (SOCKET + Z)) :
  (length (filter is_cerr (accept_loop results))
   + length (accepted_sockets results))%nat
  = length results.
Proof.
  induction results as [|[c|e] results IH]; [reflexivity| |].
  - change (accepted_sockets (inl c :: results))
      with (c :: accepted_sockets results).
    cbn [accept_loop filter is_cerr length]. lia.
  - change (accepted_sockets (inr e :: results))
      with (accepted_sockets results).
    cbn [accept_loop filter is_cerr length]. lia.
Qed.

Lemma accept_loop_no_cleanup (results : list (SOCKET + Z)) :
  filter is_cleanup (accept_loop results) = [].
Proof. induction results as [|[c|e] results IH]; cbn; assumption || reflexivity. Qed.

Lemma accept_loop_app (a b : list (SOCKET + Z)) :
  accept_loop (a ++ b) = (accept_loop a ++ accept_loop b)%list.
Proof.
  induction a as [|[c|e] a IH]; cbn; [reflexivity| |]; now rewrite IH.
Qed.

(** X11.  Once the server listens, [main] never returns.  It writes its
    one line to [cout] before it starts any thread; it starts one thread for
    each connection accepted, in the order of arrival, and a failed [accept]
    costs one line on [cerr] and nothing else: the connections that follow
    are served.  The server socket is never closed and [WSACleanup] never
    called. *)
Theorem main_serves_every_connection (w : Winsock) :
  started w = true ->
  exists served : list effect,
    main w
    = (Cout ("Server listening on port 27000" ++ Str.nl) :: served, None)
    /\ threads served = accepted_sockets (accept w)
    /\ (length (filter is_cerr served)
        + length (accepted_sockets (accept w)))%nat
       = length (accept w)
    /\ filter is_cleanup served = []
    /\ forall (before after : list (SOCKET + Z)),
         accept w = (before ++ after)%list ->
         served = (accept_loop before ++ accept_loop after)%list.
Proof.
  unfold started, main. destruct (WSAStartup w =? 0)%Z; [|discriminate].
  destruct (socket w) as [s|e]; [|discriminate].
  destruct (bind w); [discriminate|]. destruct (listen w); [discriminate|].
  intros _. exists (accept_loop (accept w)).
  split; [reflexivity|]. split; [apply accept_loop_threads|].
  split; [apply accept_loop_cerr|]. split; [apply accept_loop_no_cleanup|].
  intros before after ->. apply accept_loop_app.
Qed.

End Main.

(** ** The console never blocks *)

Module ConsoleFacts.

Import Console.

(** The actions the threads have still to take. *)
Definition work (w : world) : nat :=
  list_sum (map (@length action) (threads w)).

Lemma list_sum_cons (n : nat) (r : list nat) :
  list_sum (n :: r) = (n + list_sum r)%nat.
Proof. reflexivity. Qed.

Lemma work_update (l : list (list action)) :
  forall (i : nat) (a : action) (k : list action),
  nth_error l i = Some (a :: k) ->
  S (list_sum (map (@length action) (update i k l)))
  = list_sum (map (@length action) l).
Proof.
  induction l as [|x l IH]; intros [|i] a k H;
    cbn [nth_error update map] in *; try discriminate;
    rewrite !list_sum_cons.
  - injection H as ->. cbn [length]. lia.
  - specialize (IH i a k H). lia.
Qed.

Lemma step_work (w w' : world) : step w w' -> S (work w') = work w.
Proof.
  unfold work. intros [w0 i k Hi _|w0 i c k Hi|w0 i k Hi]; cbn [threads];
    eapply work_update; eassumption.
Qed.

(** [w] is reached in [n] steps. *)
Inductive runs_in (w0 : world) : nat -> world -> Prop :=
| runs_in_0 : runs_in w0 0 w0
| runs_in_S (n : nat) (w w' : world) :
    runs_in w0 n w -> step w w' -> runs_in w0 (S n) w'.

Lemma runs_in_runs (w0 w : world) (n : nat) : runs_in w0 n w -> runs w0 w.
Proof.
  induction 1 as [|n w w' _ IH St]; [constructor|].
  now apply runs_step with (1 := IH).
Qed.

Lemma runs_in_work (w0 w : world) (n : nat) :
  runs_in w0 n w -> (n + work w = work w0)%nat.
Proof.
  induction 1 as [|n w w' _ IH St]; [reflexivity|].
  pose proof (step_work _ _ St). lia.
Qed.

Lemma schedule_runs_in (w0 : world) (order : list nat) :
  forall (n : nat) (w w' : world),
  runs_in w0 n w -> schedule order w = Some w' ->
  runs_in w0 (n + length order) w'.
Proof.
  induction order as [|i order IH]; intros n w w' R; cbn [schedule length].
  - intros X. injection X as <-. now rewrite Nat.add_0_r.
  - destruct (fire i w) as [w1|] eqn:F; [|discriminate].
    intros X. rewrite Nat.add_succ_r.
    apply (IH (S n) w1 w'); [|exact X].
    apply runs_in_S with (1 := R). now apply (fire_step i).
Qed.

Lemma work_zero (l : list (list action)) :
  list_sum (map (@length action) l) = 0%nat -> Forall (fun k => k = []) l.
Proof.
  induction l as [|x l IH]; [constructor|].
  cbn [map]. rewrite list_sum_cons. intros H.
  constructor; [destruct x; [reflexivity|cbn [length] in H; lia]|apply IH; lia].
Qed.

Definition all_actions (texts : list (list string)) : nat :=
  work (start texts).

Lemma console_progress (texts : list (list string)) (w : world) :
  runs (start texts) w ->
  (exists (i : nat) (a : action) (k : list action),
     nth_error (threads w) i = Some (a :: k)) ->
  exists w' : world, step w w'.
Proof.
  intros R (i & a & k & Hi).
  destruct (runs_whole_lines _ _ R) as (done & rest & T & L & H).
  destruct (holder w) as [h|] eqn:Hh.
  - destruct H as (written & towrite & after & _ & _ & Th & _).
    destruct towrite as [|c towrite]; cbn [puts app] in Th.
    + eexists. eapply step_unlock. exact Th.
    + eexists. eapply step_put. exact Th.
  - destruct H as [_ P]. pose proof Hi as Hi'. rewrite P in Hi'.
    destruct (nth_error rest i) as [ri|]; [|discriminate].
    cbn in Hi'. injection Hi' as Hi'.
    destruct (program_head _ _ _ Hi') as (text & after & _ & -> & _).
    eexists. eapply step_lock; eassumption.
Qed.

(** X12.  No deadlock: as long as a thread has an action left, some thread
    can take a step, in every world the sessions can reach; and the step
    leaves one action less to take. *)
Theorem console_never_blocks (texts : list (list string)) (w : world) :
  runs (start texts) w ->
  (exists (i : nat) (a : action) (k : list action),
     nth_error (threads w) i = Some (a :: k)) ->
  exists w' : world, step w w' /\ S (work w') = work w.
Proof.
  intros R N. destruct (console_progress texts w R N) as [w' St].
  exists w'. split; [exact St|now apply step_work].
Qed.

(** X13.  Every step takes one action off some thread, so a run of the
    sessions has at most as many steps as they have actions; a run of
    exactly that many steps has finished every thread, and the console is
    then every statement of every session, whole. *)
Theorem console_runs_end
    (texts : list (list string)) (n : nat) (w : world) :
  runs_in (start texts) n w ->
  (n <= all_actions texts)%nat
  /\ (n = all_actions texts ->
      Forall (fun k => k = []) (threads w)
      /\ exists done : list string,
           taken texts done (map (fun _ => []) texts)
           /\ console w = Str.concat done).
Proof.
  intros R. pose proof (runs_in_work _ _ _ R) as W. unfold all_actions.
  split; [lia|]. intros E.
  assert (F : Forall (fun k => k = []) (threads w))
    by (apply work_zero; unfold work in *; lia).
  split; [exact F|].
  apply whole_lines_finished; [|exact F].
  apply runs_whole_lines. now apply runs_in_runs with (n := n).
Qed.

Lemma done_or_not (l : list (list action)) :
  Forall (fun k => k = []) l
  \/ exists (i : nat) (a : action) (k : list action),
       nth_error l i = Some (a :: k).
Proof.
  induction l as [|[|a k] l [IH|(i & a' & k' & IH)]].
  - left. constructor.
  - left. now constructor.
  - right. now exists (S i), a', k'.
  - right. now exists 0%nat, a, k.
  - right. now exists 0%nat, a, k.
Qed.

Lemma step_runs (w w1 w' : world) : step w w1 -> runs w1 w' -> runs w w'.
Proof.
  intros St R. induction R as [|w2 w3 _ IH St'].
  - apply runs_step with (w := w); [constructor|exact St].
  - now apply runs_step with (1 := IH).
Qed.

Lemma finish_from (texts : list (list string)) (n : nat) :
  forall w : world,
  work w = n -> runs (start texts) w ->
  exists w' : world,
    runs w w' /\ Forall (fun k => k = []) (threads w').
Proof.
  induction n as [|n IH]; intros w W R.
  - exists w. split; [constructor|]. now apply work_zero.
  - destruct (done_or_not (threads w)) as [F|N].
    + exists w. split; [constructor|exact F].
    + destruct (console_progress texts w R N) as [w1 St].
      pose proof (step_work _ _ St) as W1.
      destruct (IH w1 ltac:(lia) (runs_step _ _ _ R St)) as (w' & R' & F).
      exists w'. split; [now apply step_runs with (w1 := w1)|exact F].
Qed.

(** X14.  Whatever the sessions have done so far, they can finish: from
    every world they reach some run ends with every thread done, the mutex
    free and every statement of every session on the console, whole. *)
Theorem console_can_finish (texts : list (list string)) (w : world) :
  runs (start texts) w ->
  exists w' : world,
    runs w w'
    /\ Forall (fun k => k = []) (threads w')
    /\ holder w' = None
    /\ exists done : list string,
         taken texts done (map (fun _ => []) texts)
         /\ console w' = Str.concat done.
Proof.
  intros R.
  destruct (finish_from texts (work w) w eq_refl R) as (w' & R' & F).
  exists w'. split; [exact R'|]. split; [exact F|].
  assert (R0 : runs (start texts) w').
  { clear F. induction R' as [|w1 w2 _ IH St]; [exact R|].
    now apply runs_step with (1 := IH). }
  pose proof (runs_whole_lines _ _ R0) as WL.
  split; [|now apply whole_lines_finished].
  destruct WL as (done & rest & T & L & H).
  destruct (holder w') as [h|]; [|reflexivity].
  destruct H as (written & towrite & after & _ & _ & Th & _).
  apply nth_error_In in Th. rewrite Forall_forall in F. apply F in Th.
  now destruct (puts towrite).
Qed.

End ConsoleFacts.
(** ** A sample instance of the helpers

    A small grammar, to run the model on concrete sessions: a record is
    [<seconds>,<fuel>], two unsigned decimal numbers, the fuel one that
    binary64 holds as a number; the seconds count from midnight of
    1 January 1970 (a Thursday), which [mktime] reads as UTC. *)

Module Sample.

Definition is_space (a : ascii) : bool :=
  match a with
  | " "%char | "009"%char | "010"%char | "011"%char | "012"%char
  | "013"%char => true
  | _ => false
  end.

Fixpoint ltrim (s : string) : string :=
  match s with
  | EmptyString => EmptyString
  | String a s' => if is_space a then ltrim s' else s
  end.

Fixpoint rtrim (s : string) : string :=
  match s with
  | EmptyString => EmptyString
  | String a s' =>
      match rtrim s' with
      | EmptyString => if is_space a then EmptyString else String a EmptyString
      | t => String a t
      end
  end.

Definition trim (s : string) : string := rtrim (ltrim s).

Definition digit (a : ascii) : option Z :=
  let n := Z.of_nat (nat_of_ascii a) in
  if ((48 <=? n) && (n <=? 57))%Z then Some (n - 48)%Z else None.

Fixpoint number_from (acc : Z) (s : string) : option Z :=
  match s with
  | EmptyString => Some acc
  | String a s' =>
      match digit a with
      | Some d => number_from (10 * acc + d)%Z s'
      | None => None
      end
  end.

Definition number (s : string) : option Z :=
  if Str.empty s then None else number_from 0%Z s.

Definition tm_of_seconds (n : Z) : tm :=
  {| tm_sec := n; tm_min := 0; tm_hour := 0; tm_mday := 1; tm_mon := 0;
     tm_year := 70; tm_wday := 0; tm_yday := 0; tm_isdst := 0 |}.

Definition parseTelemetryData (line : string) : option TelemetryDataPoint :=
  match Str.find ","%char line with
  | None => None
  | Some pos =>
      match number (trim (Str.substr0 line pos)),
            number (trim (Str.erase0 line (pos + 1))) with
      | Some t, Some f =>
          if DoubleFacts.fuel_ok (of_Z f)
          then Some {| timestamp := tm_of_seconds t; fuelRemaining := of_Z f |}
          else None
      | _, _ => None
      end
  end.

Definition mktime (t : tm) : time_t * tm :=
  let s := (tm_hour t * 3600 + tm_min t * 60 + tm_sec t
            + (tm_mday t - 1) * 86400)%Z in
  let day := (s / 86400)%Z in
  let r := (s mod 86400)%Z in
  (s, {| tm_sec := r mod 60; tm_min := (r / 60) mod 60; tm_hour := r / 3600;
         tm_mday := 1 + day; tm_mon := 0; tm_year := 70;
         tm_wday := (4 + day) mod 7; tm_yday := day; tm_isdst := 0 |}).

(** A [double] written as its mantissa and binary exponent. *)
Definition show_double (x : double) : string :=
  match x with
  | S754_zero s => if s then "-0" else "0"
  | S754_infinity s => if s then "-inf" else "inf"
  | S754_nan => "nan"
  | S754_finite s m e =>
      (if s then "-" else EmptyString) ++ fmt_d (Zpos m) ++ "p" ++ fmt_d e
  end.

Definition handleClient : socket -> list Output :=
  handleClient trim parseTelemetryData mktime.

Definition run : socket -> Run := run trim parseTelemetryData mktime.

Definition console : socket -> string :=
  console trim parseTelemetryData mktime show_double.

Definition reading (seconds fuel : Z) : Reading :=
  reading_of mktime
    {| timestamp := tm_of_seconds seconds; fuelRemaining := of_Z fuel |}.

End Sample.

(** ** A parser that takes any number

    [<seconds>,<fuel>] again, the fuel now a decimal integer with an
    optional sign and an optional power of ten, [-17e307], read as [strtod]
    reads it and rounded to binary64; the value is not checked. *)

Module Lenient.

Definition signed (s : string) : option Z :=
  match s with
  | String "-"%char digits => option_map Z.opp (Sample.number digits)
  | _ => Sample.number s
  end.

Definition decimal (s : string) : option Z :=
  match Str.find "e"%char s with
  | None => signed s
  | Some pos =>
      match signed (Str.substr0 s pos),
            Sample.number (Str.erase0 s (pos + 1)) with
      | Some m, Some e => Some (m * 10 ^ e)%Z
      | _, _ => None
      end
  end.

Definition parseTelemetryData (line : string) : option TelemetryDataPoint :=
  match Str.find ","%char line with
  | None => None
  | Some pos =>
      match Sample.number (Sample.trim (Str.substr0 line pos)),
            decimal (Sample.trim (Str.erase0 line (pos + 1))) with
      | Some t, Some f =>
          Some {| timestamp := Sample.tm_of_seconds t;
                  fuelRemaining := of_Z f |}
      | _, _ => None
      end
  end.

Definition handleClient : socket -> list Output :=
  handleClient Sample.trim parseTelemetryData Sample.mktime.

End Lenient.

(** ** Sessions run on the sample helpers *)

Module Scenario.

Import Str.

(** The session of the specification: readings [(0, 100)], [(10, 95)] and
    [(20, 88)] from the airplane [N12AB]. *)
Definition three_readings : socket :=
  ["N12AB" ++ nl; "0,100" ++ nl ++ "10,95" ++ nl; "20,88" ++ nl].

(** The same bytes cut elsewhere, with an unfinished record at the end. *)
Definition cut_anywhere : socket :=
  ["N12"; "AB" ++ nl ++ "0,1"; "00" ++ nl ++ "10,95" ++ nl ++ "20"; ",8"].

(** The identifier and the telemetry in one block, then the end. *)
Definition one_block : string :=
  "N12AB" ++ nl ++ "0,100" ++ nl ++ "10,95" ++ nl.

(** A malformed record between two valid ones, and the session without. *)
Definition with_bad_record : socket :=
  ["N12AB" ++ nl; "0,100" ++ nl ++ "xyz" ++ nl ++ "10,95" ++ nl].

Definition without_bad_record : socket :=
  ["N12AB" ++ nl; "0,100" ++ nl ++ "10,95" ++ nl].

(** An identifier line that ends in CR LF, with blanks around the name. *)
Definition carriage_return : string := String "013"%char EmptyString.

Definition crlf_identifier : socket :=
  [" N12AB " ++ carriage_return ++ nl; "0,100" ++ nl ++ "10,95" ++ nl].

(** A block with a NUL byte in the identifier line, and a malformed record. *)
Definition nul_in_identifier : socket :=
  ["N1" ++ String NUL "X" ++ nl; "2" ++ nl; "x" ++ nl].

Definition nul_in_record : socket :=
  ["N12AB" ++ nl; "0,1" ++ String NUL "00" ++ nl].

Definition session_of (r : Run) : Session :=
  match r with
  | Completed _ s => s
  | Dropped recvBuffer =>
      {| flight := FlightData_init; recvBuffer := recvBuffer;
         cout := []; framed := [] |}
  end.

Definition three_readings_end : Session :=
  Eval vm_compute in session_of (Sample.run three_readings).

Definition with_bad_record_end : Session :=
  Eval vm_compute in session_of (Sample.run with_bad_record).

Definition without_bad_record_end : Session :=
  Eval vm_compute in session_of (Sample.run without_bad_record).

Definition crlf_identifier_end : Session :=
  Eval vm_compute in session_of (Sample.run crlf_identifier).

Definition readings : list string -> list Reading :=
  accepted Sample.trim Sample.parseTelemetryData Sample.mktime.

Lemma no_nul_cut_anywhere : no_nul cut_anywhere.
Proof. repeat constructor. Qed.

Lemma no_nul_crlf_identifier : no_nul crlf_identifier.
Proof. repeat constructor. Qed.

(** The second reading of [three_readings]: 5 units of fuel in 10 seconds,
    a rate of one half. *)
Lemma consumption_rate_witness :
  exists rate : double,
    nth_error (filter is_consumption (Sample.handleClient three_readings)) 0
    = Some (Consumption "N12AB" (r_stamp (Sample.reading 10 95)) (of_Z 95) rate)
    /\ rate = div (sub (of_Z 100) (of_Z 95)) (of_Z 10)
    /\ is_finite rate = true /\ is_infinite rate = false.
Proof.
  destruct (consumption_rate_of_each_reading
              Sample.trim Sample.parseTelemetryData Sample.mktime
              three_readings "N12AB" three_readings_end
              0 (Sample.reading 0 100) (Sample.reading 10 95))
    as (rate & H1 & H2 & H3); try (vm_compute; reflexivity).
  exists rate. split; [exact H1|]. split; [exact H2|].
  apply H3; vm_compute; reflexivity.
Defined.

(** The summary of [three_readings]: 12 units of fuel in 20 seconds. *)
Lemma average_witness :
  exists average : double,
    Sample.handleClient three_readings
    = (cout three_readings_end ++ [FlightEnded "N12AB" average])%list
    /\ average = div (sub (of_Z 100) (of_Z 88)) (of_Z 20).
Proof.
  destruct (average_at_session_end
              Sample.trim Sample.parseTelemetryData Sample.mktime
              three_readings "N12AB" three_readings_end)
    as (average & H1 & H2 & _).
  - vm_compute. reflexivity.
  - exists average. split; [exact H1|].
    etransitivity; [exact H2|]. vm_compute. reflexivity.
Defined.

(** Three readings, two consumption lines. *)
Lemma event_count_witness :
  length (filter is_consumption (Sample.handleClient three_readings)) = 2%nat.
Proof.
  destruct (first_reading_and_event_count
              Sample.trim Sample.parseTelemetryData Sample.mktime
              three_readings "N12AB" three_readings_end)
    as [H _].
  - vm_compute. reflexivity.
  - etransitivity; [exact H|]. vm_compute. reflexivity.
Defined.

(** However the stream is cut, the records and the rest give it back. *)
Lemma framing_witness :
  reassemble (Sample.run cut_anywhere) = Str.concat (received cut_anywhere)
  /\ reassemble (Sample.run cut_anywhere)
     = "N12AB" ++ nl ++ "0,100" ++ nl ++ "10,95" ++ nl ++ "20,8".
Proof.
  destruct (framing_round_trip
              Sample.trim Sample.parseTelemetryData Sample.mktime
              cut_anywhere no_nul_cut_anywhere) as [H _].
  split; [exact H|]. etransitivity; [exact H|]. vm_compute. reflexivity.
Defined.

(** A NUL byte in a block: the bytes after it are lost. *)
Lemma framing_drops_after_nul :
  reassemble (Sample.run nul_in_record) = "N12AB" ++ nl ++ "0,1"
  /\ Str.concat (received nul_in_record)
     = "N12AB" ++ nl ++ "0,1" ++ String NUL "00" ++ nl
  /\ reassemble (Sample.run nul_in_record)
     <> Str.concat (received nul_in_record).
Proof.
  split; [vm_compute; reflexivity|]. split; [vm_compute; reflexivity|].
  vm_compute. discriminate.
Qed.

(** [one_block]: two valid records behind the identifier, never processed. *)
Lemma one_block_witness :
  readings ["0,100"; "10,95"] = [Sample.reading 0 100; Sample.reading 10 95]
  /\ Sample.handleClient [one_block]
     = [Connected "N12AB"; FlightEnded "N12AB" zero].
Proof.
  split; [vm_compute; reflexivity|].
  apply (records_behind_the_identifier
           Sample.trim Sample.parseTelemetryData Sample.mktime
           one_block "N12AB" ("0,100" ++ nl ++ "10,95" ++ nl)).
  - vm_compute. reflexivity.
  - vm_compute. reflexivity.
Defined.

(** The record [xyz] costs one line and nothing else. *)
Lemma malformed_record_witness :
  flight with_bad_record_end = flight without_bad_record_end
  /\ length (filter is_failure (Sample.handleClient with_bad_record)) = 1%nat
  /\ length (filter is_failure (Sample.handleClient without_bad_record))
     = 0%nat.
Proof.
  destruct (malformed_record_is_skipped
              Sample.trim Sample.parseTelemetryData Sample.mktime
              with_bad_record without_bad_record "N12AB"
              with_bad_record_end without_bad_record_end
              ["0,100"] ["10,95"] "xyz")
    as (H1 & _ & _ & H2); try (vm_compute; reflexivity).
  split; [exact H1|].
  split; [etransitivity; [exact H2|]|]; vm_compute; reflexivity.
Defined.

(** The state [three_readings] ends in: started at [(0, 100)], last at
    [(20, 88)]. *)
Lemma tracker_invariant_witness :
  startTime (flight three_readings_end) = 0%Z
  /\ startFuel (flight three_readings_end) = of_Z 100
  /\ lastTime (flight three_readings_end) = 20%Z
  /\ lastFuel (flight three_readings_end) = of_Z 88.
Proof.
  pose proof (tracker_invariant
                Sample.trim Sample.parseTelemetryData Sample.mktime
                "N12AB" three_readings_end
                (run_reachable Sample.trim Sample.parseTelemetryData
                   Sample.mktime three_readings "N12AB" three_readings_end
                   eq_refl)) as H.
  assert (A : accepted Sample.trim Sample.parseTelemetryData
                Sample.mktime (framed three_readings_end)
              = [Sample.reading 0 100; Sample.reading 10 95;
                 Sample.reading 20 88])
    by (vm_compute; reflexivity).
  rewrite A in H. destruct H as (H1 & H2 & H3 & H4 & _).
  split; [|split; [|split]];
    [etransitivity; [exact H1|]|etransitivity; [exact H2|]
    |etransitivity; [exact H3|]|etransitivity; [exact H4|]];
    vm_compute; reflexivity.
Defined.

(** The rates of [three_readings] are [0.5] and [0.7], its average
    [0.6]. *)
Example rates_of_three_readings :
  Sample.handleClient three_readings
  = [Connected "N12AB";
     Consumption "N12AB" (r_stamp (Sample.reading 10 95)) (of_Z 95)
       (div (of_Z 1) (of_Z 2));
     Consumption "N12AB" (r_stamp (Sample.reading 20 88)) (of_Z 88)
       (div (of_Z 7) (of_Z 10));
     FlightEnded "N12AB" (div (of_Z 3) (of_Z 5))].
Proof. vm_compute. reflexivity. Qed.

(** What the console shows for the second and third reading of
    [three_readings]: each line is cut after the timestamp. *)
Example console_of_three_readings :
  Sample.console three_readings
  = "Connected client, airplane ID: N12AB" ++ nl
    ++ "Airplane N12AB | Thu Jan  1 00:00:10 1970" ++ nl
    ++ " Fuel Remaining: 6685030696878080p-46"
    ++ " | Current Consumption: 4503599627370496p-53 fuel/sec" ++ nl
    ++ "Airplane N12AB | Thu Jan  1 00:00:20 1970" ++ nl
    ++ " Fuel Remaining: 6192449487634432p-46"
    ++ " | Current Consumption: 6305039478318694p-53 fuel/sec" ++ nl
    ++ "Flight for airplane N12AB ended. Average Fuel Consumption: "
    ++ "5404319552844595p-53 fuel/sec" ++ nl.
Proof. vm_compute. reflexivity. Qed.

(** The blanks and the carriage return stay in the identifier, and in the
    lines that print it. *)
Lemma identifier_witness :
  Sample.run crlf_identifier
  = Completed (" N12AB " ++ carriage_return) crlf_identifier_end
  /\ forall o : Output,
       In o (Sample.handleClient crlf_identifier) ->
       if is_failure o then names o = None
       else names o = Some (" N12AB " ++ carriage_return)
            /\ exists before after : string,
                 render Sample.show_double o
                 = before ++ (" N12AB " ++ carriage_return) ++ after.
Proof.
  split; [vm_compute; reflexivity|].
  apply (identifier_is_verbatim
           Sample.trim Sample.parseTelemetryData Sample.mktime
           Sample.show_double crlf_identifier
           (" N12AB " ++ carriage_return) crlf_identifier_end
           no_nul_crlf_identifier).
  vm_compute. reflexivity.
Defined.

(** A NUL byte in the identifier line changes the identifier, and the line
    that reports a malformed record does not print it. *)
Lemma identifier_not_in_every_line :
  Sample.handleClient nul_in_identifier
  = [Connected "N12"; ParseFailed "x"; FlightEnded "N12" zero]
  /\ Str.substr0 (Str.concat (received nul_in_identifier)) 4
     = "N1" ++ String NUL "X"
  /\ Str.find NL (Str.concat (received nul_in_identifier)) = Some 4%nat
  /\ Str.contains "N12" (render Sample.show_double (ParseFailed "x")) = false.
Proof.
  split; [vm_compute; reflexivity|]. split; [vm_compute; reflexivity|].
  split; vm_compute; reflexivity.
Qed.

(** Two sessions at the same time, [A] and [B], each an identifier and
    the end of the stream.  [B] writes its first statement, then [A] both of
    its own, then [B] takes the mutex again and writes three characters. *)
Definition two_sessions : list socket := [["A" ++ nl]; ["B" ++ nl]].

Definition two_texts : list (list string) :=
  session_texts Sample.trim Sample.parseTelemetryData Sample.mktime
    Sample.show_double two_sessions.

Definition turns_of (text : string) : nat := 2 + String.length text.

Definition two_order : list nat :=
  (repeat 1 (turns_of "Connected client, airplane ID: B" + 1)
   ++ repeat 0 (turns_of "Connected client, airplane ID: A" + 1)
   ++ repeat 0
        (turns_of
           "Flight for airplane A ended. Average Fuel Consumption: 0 fuel/sec"
         + 1)
   ++ repeat 1 4)%nat%list.

Definition two_world : Console.world :=
  Eval vm_compute in
    match Console.schedule two_order (Console.start two_texts) with
    | Some w => w
    | None => Console.start two_texts
    end.

Lemma two_world_runs : Console.runs (Console.start two_texts) two_world.
Proof.
  apply (Console.schedule_runs _ two_order (Console.start two_texts));
    [constructor|vm_compute; reflexivity].
Qed.

Lemma console_witness :
  Console.console two_world
  = "Connected client, airplane ID: B" ++ nl
    ++ "Connected client, airplane ID: A" ++ nl
    ++ "Flight for airplane A ended. Average Fuel Consumption: 0 fuel/sec"
    ++ nl ++ "Fli"
  /\ exists (done : list string) (rest : list (list string)),
       Console.taken two_texts done rest
       /\ exists (written towrite : string) (after : list string),
            nth_error rest 1 = Some ((written ++ towrite) :: after)
            /\ Console.console two_world = Str.concat done ++ written.
Proof.
  split; [vm_compute; reflexivity|].
  destruct (console_lines_are_whole
              Sample.trim Sample.parseTelemetryData Sample.mktime
              Sample.show_double two_sessions two_world two_world_runs)
    as [H _].
  exact H.
Defined.

End Scenario.

(** ** Two fuel levels of opposite sign *)

Module Overflow.

Import Str.

(** A reading of [1.7e308] units of fuel, and one second later a reading of
    [-1.7e308]: both are binary64 numbers, their difference is not. *)
Definition opposite_fuels : socket :=
  ["N12AB" ++ nl; "0,17e307" ++ nl ++ "1,-17e307" ++ nl].

Definition high : double := Eval vm_compute in of_Z (17 * 10 ^ 307).

Definition low : double := Eval vm_compute in of_Z (- (17 * 10 ^ 307)).

Definition before : Reading :=
  reading_of Sample.mktime
    {| timestamp := Sample.tm_of_seconds 0; fuelRemaining := high |}.

Definition after : Reading :=
  reading_of Sample.mktime
    {| timestamp := Sample.tm_of_seconds 1; fuelRemaining := low |}.

(** The session accepts both readings, the second one second after the
    first, both fuel levels finite; the rate it writes for the second is
    plus infinity. *)
Lemma rate_is_infinite :
  (exists s : Session,
     run Sample.trim Lenient.parseTelemetryData Sample.mktime opposite_fuels
     = Completed "N12AB" s
     /\ accepted Sample.trim Lenient.parseTelemetryData Sample.mktime
          (framed s)
        = [before; after])
  /\ is_finite (r_fuel before) = true
  /\ is_finite (r_fuel after) = true
  /\ (r_time before < r_time after)%Z
  /\ filter is_consumption (Lenient.handleClient opposite_fuels)
     = [Consumption "N12AB" (r_stamp after) (r_fuel after)
          (S754_infinity false)]
  /\ is_infinite (S754_infinity false) = true.
Proof.
  split; [eexists; split; vm_compute; reflexivity|].
  split; [vm_compute; reflexivity|].
  split; [vm_compute; reflexivity|].
  split; [vm_compute; reflexivity|].
  split; [vm_compute; reflexivity|].
  reflexivity.
Qed.

End Overflow.

(** ** More sessions, a start-up that fails and a run to the end *)

Module Cases.

Import Str.

(** The bytes of [Scenario.three_readings], cut elsewhere. *)
Definition recut : socket :=
  ["N12"; "AB" ++ nl ++ "0,1"; "00" ++ nl ++ "10,95" ++ nl ++ "20";
   ",88" ++ nl].

(** A blank record between two readings. *)
Definition with_blank_record : socket :=
  ["N12AB" ++ nl; "0,100" ++ nl ++ "  " ++ nl ++ "10,95" ++ nl].

Definition with_blank_record_end : Session :=
  Eval vm_compute in Scenario.session_of (Sample.run with_blank_record).

Lemma uint_one_line (d : Decimal.uint) :
  count NL (DecimalString.NilEmpty.string_of_uint d) = 0%nat.
Proof. induction d; cbn; assumption || reflexivity. Qed.

Lemma fmt_d_one_line (z : Z) : count NL (fmt_d z) = 0%nat.
Proof.
  unfold fmt_d, DecimalString.NilZero.string_of_int,
    DecimalString.NilZero.string_of_uint.
  destruct (Z.to_int z) as [d|d].
  - destruct d; try reflexivity; apply uint_one_line.
  - change (count NL (String "-" ?s)) with (count NL s).
    destruct d; try reflexivity; apply uint_one_line.
Qed.

Lemma show_double_one_line (x : double) :
  count NL (Sample.show_double x) = 0%nat.
Proof.
  destruct x as [[|]|[|]| |[|] m e]; try reflexivity;
    unfold Sample.show_double; rewrite !count_app, !fmt_d_one_line;
    reflexivity.
Qed.

(** The same bytes cut in two ways around a NUL byte: the first cut has the
    stream [N12AB], [0,100], [10,95], the second loses [,95]. *)
Definition cut_before_nul : socket :=
  ["N12AB" ++ nl; "0,100" ++ nl; "10" ++ String NUL "junk"; ",95" ++ nl].

Definition cut_after_nul : socket :=
  ["N12AB" ++ nl; "0,100" ++ nl ++ "10" ++ String NUL "junk,95" ++ nl].

Example a_nul_makes_the_cut_matter :
  Str.concat (received cut_before_nul) = Str.concat (received cut_after_nul)
  /\ stream cut_before_nul <> stream cut_after_nul
  /\ length (filter is_consumption (Sample.handleClient cut_before_nul))
     = 1%nat
  /\ filter is_consumption (Sample.handleClient cut_after_nul) = [].
Proof.
  split; [vm_compute; reflexivity|].
  split; [vm_compute; discriminate|].
  split; vm_compute; reflexivity.
Qed.

(** A block with a newline behind a NUL byte: the stream has none. *)
Example a_newline_behind_a_nul :
  Str.find NL (Str.concat (received ["N" ++ String NUL (nl ++ "0,100" ++ nl)]))
  = Some 2%nat
  /\ Str.find NL (stream ["N" ++ String NUL (nl ++ "0,100" ++ nl)]) = None
  /\ Sample.handleClient ["N" ++ String NUL (nl ++ "0,100" ++ nl)] = [].
Proof.
  split; [vm_compute; reflexivity|].
  split; vm_compute; reflexivity.
Qed.

(** [recut] is served as [Scenario.three_readings] is. *)
Lemma blocks_do_not_matter_witness :
  Sample.run recut = Sample.run Scenario.three_readings
  /\ Sample.handleClient recut = Sample.handleClient Scenario.three_readings.
Proof.
  destruct (blocks_do_not_matter
              Sample.trim Sample.parseTelemetryData Sample.mktime
              Scenario.three_readings recut
              ("N12AB" ++ nl) ("N12AB" ++ nl ++ "0,1")
              ["0,100" ++ nl ++ "10,95" ++ nl; "20,88" ++ nl]
              ["00" ++ nl ++ "10,95" ++ nl ++ "20"; ",88" ++ nl])
    as (_ & H2 & H3).
  - vm_compute. reflexivity.
  - discriminate.
  - vm_compute. reflexivity.
  - discriminate.
  - vm_compute. reflexivity.
  - split; [exact H2|exact H3].
Defined.

(** A fourth reading that loses its newline is not a reading. *)
Lemma unterminated_tail_witness :
  Sample.handleClient (Scenario.three_readings ++ ["30,80"])%list
  = Sample.handleClient Scenario.three_readings.
Proof.
  apply (unterminated_tail_is_dropped
           Sample.trim Sample.parseTelemetryData Sample.mktime
           Scenario.three_readings ("N12AB" ++ nl)
           ["0,100" ++ nl ++ "10,95" ++ nl; "20,88" ++ nl] "30,80").
  - vm_compute. reflexivity.
  - discriminate.
  - vm_compute. reflexivity.
Defined.

(** The blank record of [with_blank_record] leaves no trace. *)
Lemma blank_record_witness :
  flight with_blank_record_end = flight Scenario.without_bad_record_end
  /\ cout with_blank_record_end = cout Scenario.without_bad_record_end
  /\ Sample.handleClient with_blank_record
     = Sample.handleClient Scenario.without_bad_record.
Proof.
  apply (blank_record_is_silent
           Sample.trim Sample.parseTelemetryData Sample.mktime
           with_blank_record Scenario.without_bad_record "N12AB"
           with_blank_record_end Scenario.without_bad_record_end
           ["0,100"] ["10,95"] "  ").
  - vm_compute. reflexivity.
  - vm_compute. reflexivity.
  - vm_compute. reflexivity.
  - vm_compute. reflexivity.
  - vm_compute. reflexivity.
Defined.

(** The average of [Scenario.three_readings] is a number. *)
Lemma average_is_a_number_witness :
  is_finite (averageConsumption (flight Scenario.three_readings_end)) = true
  /\ is_infinite (averageConsumption (flight Scenario.three_readings_end))
     = false.
Proof.
  apply (average_is_a_number
           Sample.trim Sample.parseTelemetryData Sample.mktime
           Scenario.three_readings "N12AB" Scenario.three_readings_end).
  - vm_compute. reflexivity.
  - assert (A : accepted Sample.trim Sample.parseTelemetryData Sample.mktime
                  (framed Scenario.three_readings_end)
                = [Sample.reading 0 100; Sample.reading 10 95;
                   Sample.reading 20 88])
      by (vm_compute; reflexivity).
    rewrite A.
    repeat (constructor; [vm_compute; reflexivity|]). constructor.
Defined.

(** The summary of [Scenario.three_readings] is one line. *)
Lemma summary_line_witness :
  count NL
    (render Sample.show_double
       (FlightEnded "N12AB" (div (sub (of_Z 100) (of_Z 88)) (of_Z 20))))
  = 1%nat.
Proof.
  apply (other_lines_are_single
           Sample.trim Sample.parseTelemetryData Sample.mktime
           Sample.show_double
           Scenario.three_readings "N12AB" Scenario.three_readings_end).
  - exact show_double_one_line.
  - vm_compute. reflexivity.
  - assert (A : handleClient Sample.trim Sample.parseTelemetryData
                  Sample.mktime Scenario.three_readings
                = (cout Scenario.three_readings_end
                   ++ [FlightEnded "N12AB"
                         (div (sub (of_Z 100) (of_Z 88)) (of_Z 20))])%list)
      by (vm_compute; reflexivity).
    rewrite A. apply in_or_app. right. left. reflexivity.
  - reflexivity.
Defined.

(** The port is taken: [bind] fails with [WSAEADDRINUSE]. *)
Definition port_in_use : Main.Winsock :=
  {| Main.WSAStartup := 0; Main.socket := inl 388%Z;
     Main.bind := Some 10048%Z; Main.listen := None;
     Main.accept := [inl 412%Z] |}.

Lemma port_in_use_witness :
  Main.main port_in_use
  = ([Main.Cerr ("Bind failed with error: 10048" ++ nl);
      Main.Closesocket 388%Z; Main.WSACleanup], Some 1%Z)
  /\ Main.started port_in_use = false
  /\ Main.threads (fst (Main.main port_in_use)) = [].
Proof.
  split; [vm_compute; reflexivity|].
  destruct (Main.main_returns_on_startup_failure
              port_in_use (fst (Main.main port_in_use)) 1%Z)
    as (_ & H2 & H3 & _).
  - vm_compute. reflexivity.
  - split; [exact H2|exact H3].
Defined.

(** Three connections, the second reset before it was accepted. *)
Definition one_accept_fails : Main.Winsock :=
  {| Main.WSAStartup := 0; Main.socket := inl 388%Z;
     Main.bind := None; Main.listen := None;
     Main.accept := [inl 412%Z; inr 10054%Z; inl 420%Z] |}.

Lemma one_accept_fails_witness :
  exists served : list Main.effect,
    Main.main one_accept_fails
    = (Main.Cout ("Server listening on port 27000" ++ nl) :: served, None)
    /\ Main.threads served = [412%Z; 420%Z]
    /\ length (filter Main.is_cerr served) = 1%nat.
Proof.
  destruct (Main.main_serves_every_connection one_accept_fails)
    as (served & H1 & H2 & H3 & _).
  - vm_compute. reflexivity.
  - exists served. split; [exact H1|]. split; [exact H2|].
    change (length (Main.accepted_sockets (Main.accept one_accept_fails)))
      with 2%nat in H3.
    change (length (Main.accept one_accept_fails)) with 3%nat in H3. lia.
Defined.

(** [Scenario.two_world]: session [B] holds the mutex in the middle of a
    line, and can go on. *)
Lemma console_never_blocks_witness :
  exists w' : Console.world,
    Console.step Scenario.two_world w'
    /\ S (ConsoleFacts.work w') = ConsoleFacts.work Scenario.two_world.
Proof.
  apply (ConsoleFacts.console_never_blocks
           Scenario.two_texts Scenario.two_world Scenario.two_world_runs).
  eexists 1%nat, _, _. vm_compute. reflexivity.
Defined.

(** The two sessions of [Scenario.two_sessions], one after the other. *)
Definition in_turn : list nat :=
  Eval vm_compute in
    (repeat 0 (list_sum (map Scenario.turns_of
                           (nth 0 Scenario.two_texts [])))
     ++ repeat 1 (list_sum (map Scenario.turns_of
                              (nth 1 Scenario.two_texts []))))%nat%list.

Definition in_turn_end : Console.world :=
  Eval vm_compute in
    match Console.schedule in_turn (Console.start Scenario.two_texts) with
    | Some w => w
    | None => Console.start Scenario.two_texts
    end.

Lemma in_turn_runs :
  ConsoleFacts.runs_in (Console.start Scenario.two_texts)
    (ConsoleFacts.all_actions Scenario.two_texts) in_turn_end.
Proof.
  assert (E : ConsoleFacts.all_actions Scenario.two_texts
              = (0 + length in_turn)%nat) by (vm_compute; reflexivity).
  rewrite E.
  apply (ConsoleFacts.schedule_runs_in _ in_turn 0
           (Console.start Scenario.two_texts));
    [constructor|vm_compute; reflexivity].
Qed.

Lemma console_runs_end_witness :
  Forall (fun k => k = []) (Console.threads in_turn_end)
  /\ exists done : list string,
       Console.taken Scenario.two_texts done
         (map (fun _ => []) Scenario.two_texts)
       /\ Console.console in_turn_end = Str.concat done.
Proof.
  destruct (ConsoleFacts.console_runs_end
              Scenario.two_texts
              (ConsoleFacts.all_actions Scenario.two_texts)
              in_turn_end in_turn_runs) as [_ H].
  apply H. reflexivity.
Defined.

(** From [Scenario.two_world], in the middle of a line, to the end. *)
Lemma console_can_finish_witness :
  exists w' : Console.world,
    Console.runs Scenario.two_world w'
    /\ Forall (fun k => k = []) (Console.threads w')
    /\ Console.holder w' = None.
Proof.
  destruct (ConsoleFacts.console_can_finish
              Scenario.two_texts Scenario.two_world Scenario.two_world_runs)
    as (w' & H1 & H2 & H3 & _).
  exists w'. split; [exact H1|]. split; [exact H2|exact H3].
Defined.

End Cases.
